(** * The document-load pipeline of the Veusz main window

    A shallow embedding of [MainWindow.openFileInWindow] and of the
    methods of [veusz/windows/mainwindow.py] it relies on
    ([setupDefaultDoc], [loadDefaultStylesheet],
    [loadDefaultCustomDefinitions], [addRecentFile]), followed by the
    properties of the safe/unsafe loading gate.

    The window is a record of the attributes the loader reads and
    writes; every call on a collaborator that is visible from outside
    (dialogs, cursor changes, compiler runs, document methods, command
    invocations) is recorded, in program order, in a list of events that
    each function returns next to the new state. *)

From Stdlib Require Import ZArith.
From stdpp Require Import base option list gmap strings.

Local Open Scope string_scope.
Local Open Scope list_scope.

(** ** Python values and exceptions *)

(** The values scripts pass to and receive from commands. *)
Inductive value : Type :=
| VNone
| VBool (b : bool)
| VInt (n : Z)
| VStr (s : string).

(** The part of Python's exception hierarchy the handlers of the loader
    tell apart.  [EnvironmentError], [SafeEvalException] and
    [OtherException] all derive from [Exception]; [NonException] stands
    for the classes that derive from [BaseException] only
    ([KeyboardInterrupt], [SystemExit], [GeneratorExit]), which an
    [except Exception] clause does not catch. *)
Inductive exn_class : Type :=
| EnvironmentError
| SafeEvalException
| OtherException
| NonException.

Record exn : Type := mkExn {
  exn_cls : exn_class;
  exn_str : string;        (* str(e) *)
  exn_backtrace : string   (* ''.join(traceback.format_exception(...)) *)
}.

(** [isinstance(e, Exception)] *)
Definition is_Exception (e : exn) : bool :=
  match exn_cls e with
  | NonException => false
  | _ => true
  end.

(** What a call yields to its caller. *)
Inductive call_result : Type :=
| Returns (v : value)
| Raises (e : exn).

(** ** The document *)

(** Modelled from the spec: the class [document.Document] is not part of
    this file.  The loader only uses the methods listed in the
    specification's external interfaces; a document is its widget tree
    (as a list of widget paths), its modified flag, its undo history,
    whether change notifications are enabled, and the [changeset]
    attribute that the window assigns directly. *)
Record Document : Type := mkDocument {
  doc_widgets : list string;
  doc_modified : bool;
  doc_history : list string;
  doc_updates : bool;
  doc_changeset : nat
}.

(** The operations [applyOperation] is given by the window. *)
Inductive operation : Type :=
| OperationLoadStyleSheet (filename : string)
| OperationLoadCustom (filename : string).

(** The methods of [self.document] the loader calls. *)
Inductive docop : Type :=
| Wipe
| SuspendUpdates
| EnableUpdates
| SetModified (b : bool)
| ClearHistory
| MakeDefaultDoc
| ApplyOperation (op : operation)
| SetChangeset (n : nat).

(** Modelled from the spec: [document.wipe()] clears the document. *)
Definition wipe (d : Document) : Document :=
  mkDocument [] (doc_modified d) (doc_history d) (doc_updates d) (doc_changeset d).

(** Modelled from the spec: [document.suspendUpdates()] suspends change
    notifications. *)
Definition suspendUpdates (d : Document) : Document :=
  mkDocument (doc_widgets d) (doc_modified d) (doc_history d) false (doc_changeset d).

(** Modelled from the spec: [document.enableUpdates()] re-enables change
    notifications. *)
Definition enableUpdates (d : Document) : Document :=
  mkDocument (doc_widgets d) (doc_modified d) (doc_history d) true (doc_changeset d).

(** Modelled from the spec: [document.setModified(b)] sets the modified
    flag. *)
Definition setModified (b : bool) (d : Document) : Document :=
  mkDocument (doc_widgets d) b (doc_history d) (doc_updates d) (doc_changeset d).

(** Modelled from the spec: [document.clearHistory()] empties the undo
    history. *)
Definition clearHistory (d : Document) : Document :=
  mkDocument (doc_widgets d) (doc_modified d) [] (doc_updates d) (doc_changeset d).

(** Modelled from the spec: [document.makeDefaultDoc()] adds a page and a
    default graph (the comment at its call site in [setupDefaultDoc]). *)
Definition makeDefaultDoc (d : Document) : Document :=
  mkDocument (doc_widgets d ++ ["/page1"; "/page1/graph1"])
             (doc_modified d) (doc_history d) (doc_updates d) (doc_changeset d).

(** [self.document.changeset = n] *)
Definition set_changeset (n : nat) (d : Document) : Document :=
  mkDocument (doc_widgets d) (doc_modified d) (doc_history d) (doc_updates d) n.

(** What [document.applyOperation] does with a load operation: it
    completes, or it raises the [EnvironmentError] its two callers
    handle. *)
Inductive op_result : Type :=
| OpDone (d : Document)
| OpEnvironmentError (d : Document) (strerror : string).

(** ** Scripts *)

(** The behaviour of a compiled script, seen from the environment it is
    executed in: it finishes, lets an exception escape, or calls a name
    of the environment and goes on according to what the call yields (a
    script may catch what a call raises).  Computations that do not go
    through the environment are part of the continuations. *)
Inductive script : Type :=
| SFinish
| SRaise (e : exn)
| SCall (name : string) (args : list value) (k : call_result -> script).

Inductive read_result : Type :=
| ReadOk (text : string)
| ReadRaises (e : exn).

Inductive compile_result : Type :=
| Compiled (code : script)
| CompileRaises (e : exn).

(** What a name of the execution environment is bound to. *)
Inductive binding : Type :=
| Plain (v : value)               (* an entry of eval_context, or __file__ *)
| RootNode                        (* interface.Root *)
| Command (name : string)         (* getattr(interface, name) *)
| UnsafeCaller (name : string).   (* _unsafeCaller(getattr(interface, name)) *)

(** Output streams are compared by identity. *)
Definition stream : Type := nat.

(** ** Events *)

Inductive event : Type :=
| EvSetOverrideCursor
| EvRestoreOverrideCursor
| EvCritical (filename strerror : string)          (* QMessageBox.critical *)
| EvWarning (filename strerror : string)           (* QMessageBox.warning *)
| EvCompileChecked (ignoresecurity : bool)         (* utils.compileChecked *)
| EvUnsafeCmdMsgBox (yes : bool)                   (* _unsafeCmdMsgBox(...).exec_() *)
| EvUnsafeVeuszCmdMsgBox (yes : bool)              (* _unsafeVeuszCmdMsgBox(...).exec_() *)
| EvErrorLoadingDialog (filename msg backtrace : string)
| EvDoc (op : docop)                               (* a method of self.document *)
| EvAddImportPath (dir : string)
| EvCommand (name : string) (args : list value)    (* getattr(interface, name)(...) *)
| EvPopulateRecentFiles
| EvUpdateTitlebar
| EvUpdateStatusbar (filename : string)
| EvDocumentOpened.

(** ** What the loader is given *)

(** The modules, settings and files the window works with and does not
    change while loading. *)
Record Host : Type := mkHost {
  open_read : string -> read_result;                          (* open(filename, 'rU').read() *)
  compileChecked : string -> string -> bool -> compile_result; (* script, filename, ignoresecurity *)
  unsafe_mode : bool;                                         (* setting.transient_settings *)
  eval_context : gmap string binding;                         (* document.eval_context *)
  safe_commands : list string;                                (* interface.safe_commands *)
  unsafe_commands : list string;                              (* interface.unsafe_commands *)
  command : string -> list value -> Document -> Document * call_result;
  applyOperation : operation -> Document -> op_result;
  stylesheet_default : string;                                (* setdb *)
  custom_default : string;                                    (* setdb *)
  dirname_usecwd : bool;                                      (* setdb *)
  con_stdout : stream;                                        (* self.console.con_stdout *)
  con_stderr : stream;                                        (* self.console.con_stderr *)
  abspath : string -> string;                                 (* os.path.abspath *)
  path_dirname : string -> string                             (* os.path.dirname *)
}.

(** The state the loader reads and writes: attributes of the window, the
    process-wide output streams, the list of recent files in the settings
    database, and the user, who is the list of answers to the Yes/No
    boxes still to come ([true] is Yes). *)
Record World : Type := mkWorld {
  document : Document;
  sys_stdout : stream;
  sys_stderr : stream;
  answers : list bool;
  win_filename : string;
  win_dirname : string;
  win_dirname_export : string;
  main_recentfiles : list string
}.

Definition set_document (d : Document) (w : World) : World :=
  mkWorld d (sys_stdout w) (sys_stderr w) (answers w) (win_filename w)
          (win_dirname w) (win_dirname_export w) (main_recentfiles w).

Definition set_streams (out err : stream) (w : World) : World :=
  mkWorld (document w) out err (answers w) (win_filename w)
          (win_dirname w) (win_dirname_export w) (main_recentfiles w).

Definition set_answers (a : list bool) (w : World) : World :=
  mkWorld (document w) (sys_stdout w) (sys_stderr w) a (win_filename w)
          (win_dirname w) (win_dirname_export w) (main_recentfiles w).

Definition set_filename (f : string) (w : World) : World :=
  mkWorld (document w) (sys_stdout w) (sys_stderr w) (answers w) f
          (win_dirname w) (win_dirname_export w) (main_recentfiles w).

Definition set_dirnames (d : string) (w : World) : World :=
  mkWorld (document w) (sys_stdout w) (sys_stderr w) (answers w) (win_filename w)
          d d (main_recentfiles w).

Definition set_recentfiles (r : list string) (w : World) : World :=
  mkWorld (document w) (sys_stdout w) (sys_stderr w) (answers w) (win_filename w)
          (win_dirname w) (win_dirname_export w) r.

(** How a call of [openFileInWindow] ends: it returns, or an exception
    no handler of it catches leaves it. *)
Inductive outcome : Type :=
| Returned
| Propagated (e : exn).

(** [QMessageBox.exec_()] for the two Yes/No boxes: the user's next
    answer.  A user who has no answer left dismisses the box with its
    default button, which for both boxes is No. *)
Definition exec_ (ans : list bool) : bool * list bool :=
  match ans with
  | [] => (false, [])
  | a :: rest => (a, rest)
  end.

(** ** The loader *)

Section Loader.

Context (h : Host).

(** [MainWindow.loadDefaultStylesheet] *)
Definition loadDefaultStylesheet (d : Document) : Document * list event :=
  let filename := stylesheet_default h in
  if decide (filename = "") then (d, [])
  else
    let op := OperationLoadStyleSheet filename in
    match applyOperation h op d with
    | OpEnvironmentError d' strerror =>
        (d', [EvDoc (ApplyOperation op); EvWarning filename strerror])
    | OpDone d' =>
        (set_changeset 0 (setModified false d'),
         [EvDoc (ApplyOperation op); EvDoc (SetModified false); EvDoc (SetChangeset 0)])
    end.

(** [MainWindow.loadDefaultCustomDefinitions] *)
Definition loadDefaultCustomDefinitions (d : Document) : Document * list event :=
  let filename := custom_default h in
  if decide (filename = "") then (d, [])
  else
    let op := OperationLoadCustom filename in
    match applyOperation h op d with
    | OpEnvironmentError d' strerror =>
        (d', [EvDoc (ApplyOperation op); EvWarning filename strerror])
    | OpDone d' =>
        (set_changeset 0 (setModified false d'),
         [EvDoc (ApplyOperation op); EvDoc (SetModified false); EvDoc (SetChangeset 0)])
    end.

(** [MainWindow.setupDefaultDoc] *)
Definition setupDefaultDoc (d : Document) : Document * list event :=
  let d1 := makeDefaultDoc d in
  let '(d2, evs2) := loadDefaultStylesheet d1 in
  let '(d3, evs3) := loadDefaultCustomDefinitions d2 in
  (d3, EvDoc MakeDefaultDoc :: evs2 ++ evs3).

(** [del recent[recent.index(filename)]]: the first occurrence goes. *)
Fixpoint del_first (x : string) (l : list string) : list string :=
  match l with
  | [] => []
  | y :: r => if decide (x = y) then r else y :: del_first x r
  end.

(** [MainWindow.addRecentFile] *)
Definition addRecentFile (filename : string) (w : World) : World * list event :=
  let recent := main_recentfiles w in
  let filename := abspath h filename in
  let recent := if decide (filename ∈ recent) then del_first filename recent else recent in
  let recent := filename :: recent in
  (set_recentfiles (take 10 recent) w, [EvPopulateRecentFiles]).

(** [errordialog], the local function of [openFileInWindow]. *)
Definition errordialog (filename : string) (e : exn) : list event :=
  [EvRestoreOverrideCursor;
   EvErrorLoadingDialog filename (exn_str e) (exn_backtrace e)].

(** How the [while True] loop around [utils.compileChecked] is left. *)
Inductive loop_exit : Type :=
| Break (compiled : script)
| Return_
| Propagate (e : exn).

(** The compile loop.  Each pass that ends in the whole-file prompt takes
    one answer from the user, so the loop is a recursion on the answers
    that are left.  It yields how the loop is left, the value of the
    local [unsafe], the answers that remain and the events. *)
Fixpoint compile_loop (text filename : string) (unsafe : bool) (ans : list bool)
  : loop_exit * bool * list bool * list event :=
  match compileChecked h text filename unsafe with
  | Compiled c => (Break c, unsafe, ans, [EvCompileChecked unsafe])
  | CompileRaises e =>
      match exn_cls e with
      | SafeEvalException =>
          match ans with
          | true :: rest =>
              let '(x, u, a, evs) := compile_loop text filename true rest in
              (x, u, a,
               EvCompileChecked unsafe :: EvRestoreOverrideCursor
                 :: EvUnsafeCmdMsgBox true :: evs)
          | false :: rest =>
              (Return_, unsafe, rest,
               [EvCompileChecked unsafe; EvRestoreOverrideCursor; EvUnsafeCmdMsgBox false])
          | [] =>
              (Return_, unsafe, [],
               [EvCompileChecked unsafe; EvRestoreOverrideCursor; EvUnsafeCmdMsgBox false])
          end
      | NonException => (Propagate e, unsafe, ans, [EvCompileChecked unsafe])
      | _ => (Return_, unsafe, ans, EvCompileChecked unsafe :: errordialog filename e)
      end
  end.

(** The environment the script runs in, in the order the loader fills
    it: a copy of [eval_context], the safe commands, [Root], the wrapped
    unsafe commands, [__file__]. *)
Definition build_env (filename : string) : gmap string binding :=
  let env := eval_context h in
  let env := foldl (fun env cmd => <[cmd := Command cmd]> env) env (safe_commands h) in
  let env := <["Root" := RootNode]> env in
  let env := foldl (fun env name => <[name := UnsafeCaller name]> env) env (unsafe_commands h) in
  <["__file__" := Plain (VStr (abspath h filename))]> env.

(** The state a running script and the wrappers share: the cell
    [safenow[0]], the document, the user. *)
Record ExecState : Type := mkExec {
  safenow : bool;
  exec_doc : Document;
  exec_answers : list bool
}.

(** A wrapper has no [return] with a value: what [func] returns is
    dropped, what it raises passes through. *)
Definition discard (r : call_result) : call_result :=
  match r with
  | Returns _ => Returns VNone
  | Raises e => Raises e
  end.

(** The bound method [getattr(interface, name)], called. *)
Definition call_command (name : string) (args : list value) (st : ExecState)
  : ExecState * list event * call_result :=
  let '(d, r) := command h name args (exec_doc st) in
  (mkExec (safenow st) d (exec_answers st), [EvCommand name args], r).

(** [wrapped], the function [_unsafeCaller(getattr(interface, name))]
    returns. *)
Definition wrapped (name : string) (args : list value) (st : ExecState)
  : ExecState * list event * call_result :=
  let '(declined, st1, evs1) :=
    if negb (safenow st) then
      let '(yes, rest) := exec_ (exec_answers st) in
      (negb yes, mkExec (safenow st) (exec_doc st) rest,
       [EvRestoreOverrideCursor; EvUnsafeVeuszCmdMsgBox yes])
    else (false, st, []) in
  if declined then (st1, evs1, Returns VNone)
  else
    let '(d, r) := command h name args (exec_doc st1) in
    (mkExec true d (exec_answers st1), evs1 ++ [EvCommand name args], discard r).

Definition NameError (name : string) : exn :=
  mkExn OtherException ("name '" +:+ name +:+ "' is not defined") "NameError".

Definition TypeError (name : string) : exn :=
  mkExn OtherException ("'" +:+ name +:+ "' object is not callable") "TypeError".

(** A script calls a name of its environment.  Only commands are
    callable here: a call of a name that is bound to a plain value or to
    the root node, or of a name that is not bound, raises into the
    script. *)
Definition call (env : gmap string binding) (name : string) (args : list value)
    (st : ExecState) : ExecState * list event * call_result :=
  match env !! name with
  | Some (Command c) => call_command c args st
  | Some (UnsafeCaller c) => wrapped c args st
  | Some (Plain _) | Some RootNode => (st, [], Raises (TypeError name))
  | None => (st, [], Raises (NameError name))
  end.

(** [cexec(compiled, env)]: the final state, the events, and the
    exception that leaves the script, if one does. *)
Fixpoint cexec (env : gmap string binding) (s : script) (st : ExecState)
  : ExecState * list event * option exn :=
  match s with
  | SFinish => (st, [], None)
  | SRaise e => (st, [], Some e)
  | SCall name args k =>
      let '(st1, evs1, r) := call env name args st in
      let '(st2, evs2, o) := cexec env (k r) st1 in
      (st2, evs1 ++ evs2, o)
  end.

(** [MainWindow.openFileInWindow] *)
Definition openFileInWindow (filename : string) (w : World)
  : World * list event * outcome :=
  match open_read h filename with
  | ReadRaises e =>
      match exn_cls e with
      | EnvironmentError =>
          let '(d, evs) := setupDefaultDoc (document w) in
          (set_document d w,
           EvSetOverrideCursor :: EvRestoreOverrideCursor
             :: EvCritical filename (exn_str e) :: evs,
           Returned)
      | _ => (w, [EvSetOverrideCursor], Propagated e)
      end
  | ReadOk text =>
      let '(x, unsafe, ans, evs1) :=
        compile_loop text filename (unsafe_mode h) (answers w) in
      let w1 := set_answers ans w in
      match x with
      | Return_ => (w1, EvSetOverrideCursor :: evs1, Returned)
      | Propagate e => (w1, EvSetOverrideCursor :: evs1, Propagated e)
      | Break compiled =>
          let env := build_env filename in
          let stdout := sys_stdout w1 in
          let stderr := sys_stderr w1 in
          let w2 := set_streams (con_stdout h) (con_stderr h) w1 in
          let d2 := suspendUpdates (wipe (document w2)) in
          let dir := path_dirname h (abspath h filename) in
          let '(st, evs2, raised) := cexec env compiled (mkExec unsafe d2 (answers w2)) in
          let w3 := set_answers (exec_answers st) (set_document (exec_doc st) w2) in
          let evs := EvSetOverrideCursor :: evs1
                       ++ [EvDoc Wipe; EvDoc SuspendUpdates; EvAddImportPath dir]
                       ++ evs2 in
          match raised with
          | Some e =>
              if is_Exception e then
                let w4 := set_streams stdout stderr w3 in
                let w5 := set_document (enableUpdates (document w4)) w4 in
                (w5, evs ++ EvDoc EnableUpdates :: errordialog filename e, Returned)
              else (w3, evs, Propagated e)
          | None =>
              let w4 := set_streams stdout stderr w3 in
              let d5 := clearHistory (setModified false (enableUpdates (document w4))) in
              let w5 := set_document d5 w4 in
              let '(w6, evs6) := addRecentFile filename w5 in
              let w7 := set_filename filename w6 in
              let w8 := if dirname_usecwd h then w7 else set_dirnames dir w7 in
              (w8,
               evs ++ [EvDoc EnableUpdates; EvDoc (SetModified false); EvDoc ClearHistory]
                   ++ evs6
                   ++ [EvUpdateTitlebar; EvUpdateStatusbar filename;
                       EvDocumentOpened; EvRestoreOverrideCursor],
               Returned)
          end
      end
  end.

End Loader.

(** ** Straight-line scripts *)

(** A script that is a sequence of calls and has no [try]: it calls one
    name after the other, ignores what the calls return, and ends with
    the first exception a call raises. *)
Fixpoint straight (calls : list (string * list value)) : script :=
  match calls with
  | [] => SFinish
  | (name, args) :: rest =>
      SCall name args
        (fun r => match r with
                  | Returns _ => straight rest
                  | Raises e => SRaise e
                  end)
  end.

(** The commands that were really invoked, in order. *)
Fixpoint invoked (evs : list event) : list (string * list value) :=
  match evs with
  | [] => []
  | EvCommand name args :: r => (name, args) :: invoked r
  | _ :: r => invoked r
  end.

(** The command a call of the script is aimed at, whether bound as it is
    or wrapped. *)
Definition target (env : gmap string binding) (c : string * list value)
  : option (string * list value) :=
  match env !! c.1 with
  | Some (Command n) | Some (UnsafeCaller n) => Some (n, c.2)
  | _ => None
  end.

Definition is_safe_call (env : gmap string binding) (c : string * list value) : Prop :=
  exists n, env !! c.1 = Some (Command n).

Definition is_command_call (env : gmap string binding) (c : string * list value) : Prop :=
  exists n, env !! c.1 = Some (Command n) \/ env !! c.1 = Some (UnsafeCaller n).

(** The per-command prompt, whatever the answer. *)
Definition is_cmd_prompt (e : event) : bool :=
  match e with
  | EvUnsafeVeuszCmdMsgBox _ => true
  | _ => false
  end.

(** The events a running script can cause: prompts of the wrappers, the
    cursor change before them, and command invocations. *)
Definition is_exec_event (e : event) : bool :=
  match e with
  | EvUnsafeVeuszCmdMsgBox _ | EvRestoreOverrideCursor | EvCommand _ _ => true
  | _ => false
  end.

(** The events the compile loop can cause. *)
Definition is_loop_event (e : event) : bool :=
  match e with
  | EvCompileChecked _ | EvRestoreOverrideCursor | EvUnsafeCmdMsgBox _
  | EvErrorLoadingDialog _ _ _ => true
  | _ => false
  end.

(** The events [setupDefaultDoc] can cause. *)
Definition is_setup_event (e : event) : bool :=
  match e with
  | EvDoc _ | EvWarning _ _ => true
  | _ => false
  end.

(** The events the loader causes once the script has ended. *)
Definition is_tail_event (e : event) : bool :=
  match e with
  | EvDoc _ | EvRestoreOverrideCursor | EvErrorLoadingDialog _ _ _
  | EvPopulateRecentFiles | EvUpdateTitlebar | EvUpdateStatusbar _
  | EvDocumentOpened => true
  | _ => false
  end.

(** No per-command prompt is shown in a run of events. *)
Definition no_cmd_prompt (evs : list event) : Prop :=
  Forall (fun e => is_cmd_prompt e = false) evs.

(** ** A sample installation *)

Module Sample.

Definition SystemExit : exn :=
  mkExn NonException "0" "SystemExit: 0".

Definition ZeroDivisionError : exn :=
  mkExn OtherException "division by zero" "ZeroDivisionError: division by zero".

Definition SyntaxError : exn :=
  mkExn OtherException "invalid syntax" "SyntaxError: invalid syntax".

Definition SecurityError : exn :=
  mkExn SafeEvalException "Access to 'import' not allowed" "SafeEvalException".

Definition ENOENT : exn :=
  mkExn EnvironmentError "No such file or directory" "IOError".

(** Every command records itself in the widget tree and in the undo
    history, marks the document modified and returns a number. *)
Definition sample_command (name : string) (args : list value) (d : Document)
  : Document * call_result :=
  (mkDocument (doc_widgets d ++ [name]) true (name :: doc_history d)
              (doc_updates d) (doc_changeset d),
   Returns (VInt 7)).

Definition plain_script : script :=
  straight [("Add", [VStr "page"]); ("Set", [VStr "x"; VInt 1])].

Definition export_script : script :=
  straight [("Add", [VStr "page"]); ("Export", [VStr "out.pdf"]);
            ("Set", [VStr "x"; VInt 1]); ("Print", []); ("Save", [VStr "copy.vsz"])].

Definition failing_script : script :=
  SCall "Add" [VStr "page"] (fun _ => SRaise ZeroDivisionError).

(** [Add('page')] followed by [import sys; sys.exit(0)]. *)
Definition exit_script : script :=
  SCall "Add" [VStr "page"] (fun _ => SRaise SystemExit).

(** The files of the sample: the text of a file is its name. *)
Definition sample_read (filename : string) : read_result :=
  if decide (filename = "missing.vsz") then ReadRaises ENOENT else ReadOk filename.

Definition sample_compile (text filename : string) (ignoresecurity : bool)
  : compile_result :=
  if decide (text = "plain.vsz") then Compiled plain_script
  else if decide (text = "export.vsz") then Compiled export_script
  else if decide (text = "failing.vsz") then Compiled failing_script
  else if decide (text = "exit.vsz") then
    if ignoresecurity then Compiled exit_script else CompileRaises SecurityError
  else if decide (text = "import.vsz") then
    if ignoresecurity then Compiled export_script else CompileRaises SecurityError
  else CompileRaises SyntaxError.

Definition host : Host :=
  {| open_read := sample_read;
     compileChecked := sample_compile;
     unsafe_mode := false;
     eval_context := {[ "pi" := Plain (VInt 3) ]};
     safe_commands := ["Add"; "Set"];
     unsafe_commands := ["Export"; "Print"; "Save"];
     command := sample_command;
     applyOperation := fun _ d => OpDone d;
     stylesheet_default := "";
     custom_default := "";
     dirname_usecwd := false;
     con_stdout := 11;
     con_stderr := 12;
     abspath := fun f => "/home/user/" +:+ f;
     path_dirname := fun _ => "/home/user" |}.

(** A window that shows an edited document. *)
Definition edited : Document :=
  mkDocument ["/page1"; "/page1/graph1"; "/page1/graph1/xy1"] true ["add xy"] true 3.

Definition window (ans : list bool) : World :=
  mkWorld edited 1 2 ans "" "/tmp" "/tmp" [].

End Sample.

(** ** Scripts that stay within a set of names *)

(** Every call the script can make, whatever the calls before it have
    yielded, is a call of a name that satisfies [ok]. *)
Inductive calls_within (ok : string -> Prop) : script -> Prop :=
| cw_finish : calls_within ok SFinish
| cw_raise e : calls_within ok (SRaise e)
| cw_call name args k :
    ok name -> (forall r, calls_within ok (k r)) ->
    calls_within ok (SCall name args k).

(** A name that is not bound to the wrapper of an unsafe command. *)
Definition not_wrapped (env : gmap string binding) (name : string) : Prop :=
  forall c, env !! name <> Some (UnsafeCaller c).

(** The per-command prompt or the whole-file prompt. *)
Definition is_prompt (e : event) : bool :=
  match e with
  | EvUnsafeCmdMsgBox _ | EvUnsafeVeuszCmdMsgBox _ => true
  | _ => false
  end.


(** ** Opening files that are dropped on the window *)

(** A drag-and-drop event, as far as the window looks at it. *)
Record DropEvent : Type := mkDropEvent {
  provides_uri_list : bool;    (* event.provides("text/uri-list") *)
  hasUrls : bool;              (* event.mimeData().hasUrls() *)
  url_paths : list string      (* [u.path() for u in mime.urls()] *)
}.

(** Where a file is loaded: in this window, by [openFileInWindow], or in
    a window of its own, by [CreateWindow]. *)
Inductive opening : Type :=
| OpenFileInWindow (filename : string)
| CreateWindow (filename : string).

Definition opened_file (o : opening) : string :=
  match o with
  | OpenFileInWindow f | CreateWindow f => f
  end.

(** [MainWindow._getVeuszDropFiles]; [splitext] is [os.path.splitext]. *)
Definition _getVeuszDropFiles (splitext : string -> string * string)
    (event : DropEvent) : list string :=
  if negb (hasUrls event) then []
  else filter (fun u => (splitext u).2 = ".vsz") (url_paths event).

(** [MainWindow.dragEnterEvent]: whether the proposed action is
    accepted. *)
Definition dragEnterEvent (splitext : string -> string * string)
    (event : DropEvent) : bool :=
  provides_uri_list event
  && bool_decide (_getVeuszDropFiles splitext event <> []).

(** [MainWindow.openFile], given [self.document.isBlank()]. *)
Definition openFile (isBlank : bool) (filename : string) : opening :=
  if isBlank then OpenFileInWindow filename else CreateWindow filename.

(** [MainWindow.dropEvent], given [self.document.isBlank()]: the
    loads it starts, in order. *)
Definition dropEvent (splitext : string -> string * string) (isBlank : bool)
    (event : DropEvent) : list opening :=
  if provides_uri_list event then
    match _getVeuszDropFiles splitext event with
    | [] => []
    | first :: rest =>
        (if isBlank then OpenFileInWindow first else CreateWindow first)
          :: map CreateWindow rest
    end
  else [].

(** ** The dialogs of the window *)

(** [MainWindow.showDialog] on [self.dialogs]; dialogs are compared by
    identity. *)
Definition showDialog (dialog : nat) (dialogs : list nat) : list nat :=
  dialogs ++ [dialog].

(** [MainWindow.deleteDialog] on [self.dialogs]: the first occurrence is
    deleted; the [ValueError] of [index] for a dialog that is not listed
    is passed over. *)
Fixpoint deleteDialog (dialog : nat) (dialogs : list nat) : list nat :=
  match dialogs with
  | [] => []
  | d :: rest => if decide (dialog = d) then rest else d :: deleteDialog dialog rest
  end.

(** ** Saving and closing *)

(** The buttons of the box of [queryOverwrite]. *)
Inductive button : Type := Yes | No | Cancel.

(** What the user does with a file dialog. *)
Inductive file_dialog : Type :=
| Accepted (directory selected : string)   (* fd.exec_() == QDialog.Accepted *)
| Rejected.

(** What writing the document to a file does:
    [ofile = open(filename, 'w'); document.saveToFile(ofile)]. *)
Inductive save_result : Type :=
| Saved (d : Document)
| SaveRaises (e : exn).

Inductive ui_event : Type :=
| UiSetOverrideCursor
| UiRestoreOverrideCursor
| UiQueryOverwrite (answer : button)              (* queryOverwrite() *)
| UiFileSaveDialog (result : file_dialog)         (* fd.exec_() in _fileSaveDialog *)
| UiWrite (filename : string)                     (* open(filename, 'w'), saveToFile *)
| UiStatusSaved (filename : string)               (* updateStatusbar("Saved to ...") *)
| UiCritical (filename strerror : string)         (* QMessageBox.critical *)
| UiUpdateTitlebar
| UiWriteSettings (dirname dirname_export : string) (* setdb[...] = ...; writeSettings() *)
| UiIgnore                                        (* event.ignore() *)
| UiAccept.                                       (* event.accept() *)

(** What saving is given: [os.path.splitext] and the file system. *)
Record Desktop : Type := mkDesktop {
  splitext : string -> string * string;
  write_document : string -> Document -> save_result
}.

Definition set_dirname (d : string) (w : World) : World :=
  mkWorld (document w) (sys_stdout w) (sys_stderr w) (answers w) (win_filename w)
          d (win_dirname_export w) (main_recentfiles w).

(** [dialogs.pop(0)]: the user's next file dialog; a user who has none
    left closes the dialog. *)
Definition next_dialog (dlgs : list file_dialog) : file_dialog * list file_dialog :=
  match dlgs with
  | [] => (Rejected, [])
  | r :: rest => (r, rest)
  end.

(** [MainWindow._fileSaveDialog]: the file name it returns, if any. *)
Definition _fileSaveDialog (dt : Desktop) (filetype : string) (w : World)
    (dlgs : list file_dialog)
  : option string * World * list file_dialog * list ui_event :=
  let '(r, rest) := next_dialog dlgs in
  match r with
  | Accepted directory selected =>
      let w1 := set_dirname directory w in
      let filename :=
        if decide ((splitext dt selected).2 = "")
        then selected +:+ "." +:+ filetype else selected in
      (Some filename, w1, rest, [UiFileSaveDialog r])
  | Rejected => (None, w, rest, [UiFileSaveDialog r])
  end.

(** [MainWindow.slotFileSave] and [MainWindow.slotFileSaveAs], which call
    each other; [fuel] bounds the depth of the calls. *)
Fixpoint slotFileSave (fuel : nat) (dt : Desktop) (w : World) (dlgs : list file_dialog)
  : option (World * list file_dialog * list ui_event * outcome) :=
  match fuel with
  | 0 => None
  | S fuel =>
      if decide (win_filename w = "") then slotFileSaveAs fuel dt w dlgs
      else
        match write_document dt (win_filename w) (document w) with
        | Saved d =>
            Some (set_document d w, dlgs,
                  [UiSetOverrideCursor; UiWrite (win_filename w);
                   UiStatusSaved (win_filename w); UiRestoreOverrideCursor],
                  Returned)
        | SaveRaises e =>
            match exn_cls e with
            | EnvironmentError =>
                Some (w, dlgs,
                      [UiSetOverrideCursor; UiWrite (win_filename w);
                       UiRestoreOverrideCursor;
                       UiCritical (win_filename w) (exn_str e)],
                      Returned)
            | _ =>
                Some (w, dlgs, [UiSetOverrideCursor; UiWrite (win_filename w)],
                      Propagated e)
            end
        end
  end
with slotFileSaveAs (fuel : nat) (dt : Desktop) (w : World) (dlgs : list file_dialog)
  : option (World * list file_dialog * list ui_event * outcome) :=
  match fuel with
  | 0 => None
  | S fuel =>
      let '(filename, w1, dlgs1, evs1) := _fileSaveDialog dt "vsz" w dlgs in
      match filename with
      | Some f =>
          if decide (f = "") then Some (w1, dlgs1, evs1, Returned)
          else
            match slotFileSave fuel dt (set_filename f w1) dlgs1 with
            | Some (w2, dlgs2, evs2, o) =>
                Some (w2, dlgs2, evs1 ++ UiUpdateTitlebar :: evs2, o)
            | None => None
            end
      | None => Some (w1, dlgs1, evs1, Returned)
      end
  end.

(** [MainWindow.closeEvent]; [answer] is what the user answers if
    [queryOverwrite] is shown. *)
Definition closeEvent (fuel : nat) (dt : Desktop) (answer : button) (w : World)
    (dlgs : list file_dialog)
  : option (World * list file_dialog * list ui_event * outcome) :=
  let finish (w1 : World) (dlgs1 : list file_dialog) (evs : list ui_event) :=
    Some (w1, dlgs1,
          evs ++ [UiWriteSettings (win_dirname w1) (win_dirname_export w1); UiAccept],
          Returned) in
  if doc_modified (document w) then
    match answer with
    | Cancel => Some (w, dlgs, [UiQueryOverwrite Cancel; UiIgnore], Returned)
    | Yes =>
        match slotFileSave fuel dt w dlgs with
        | Some (w1, dlgs1, evs1, Returned) =>
            finish w1 dlgs1 (UiQueryOverwrite Yes :: evs1)
        | Some (w1, dlgs1, evs1, Propagated e) =>
            Some (w1, dlgs1, UiQueryOverwrite Yes :: evs1, Propagated e)
        | None => None
        end
    | No => finish w dlgs [UiQueryOverwrite No]
    end
  else finish w dlgs [].

(** The events of a write attempt. *)
Definition is_write (e : ui_event) : bool :=
  match e with
  | UiWrite _ => true
  | _ => false
  end.

(** The events [slotFileSave] and [slotFileSaveAs] can cause. *)
Definition is_save_event (e : ui_event) : bool :=
  match e with
  | UiSetOverrideCursor | UiRestoreOverrideCursor | UiFileSaveDialog _
  | UiWrite _ | UiStatusSaved _ | UiCritical _ _ | UiUpdateTitlebar => true
  | _ => false
  end.

(** ** Export formats *)

(** An entry of [document.Export.formats]: the extensions of a format
    and its name. *)
Definition format : Type := (list string * string)%type.

(** The filter string of a format:
    ['%s (%s)' % (name, " ".join(["*." + item for item in extns]))]. *)
Definition filterstr (f : format) : string :=
  f.2 +:+ " (" +:+ String.concat " " (map (fun item => "*." +:+ item) f.1) +:+ ")".

(** The tables [slotFileExport] builds from the formats. *)
Record ExportTables : Type := mkExportTables {
  filtertoext : gmap string (list string);
  exttofilter : gmap string string;
  filters : list string;
  validextns : list string
}.

(** One pass of the loop over the formats in [slotFileExport]. *)
Definition add_format (t : ExportTables) (f : format) : ExportTables :=
  let fs := filterstr f in
  mkExportTables
    (<[fs := f.1]> (filtertoext t))
    (foldl (fun m e => <[e := fs]> m) (exttofilter t) f.1)
    (filters t ++ [fs])
    (validextns t ++ f.1).

(** The loop over the formats in [slotFileExport]. *)
Definition export_tables (formats : list format) : ExportTables :=
  foldl add_format (mkExportTables ∅ ∅ [] []) formats.

(** The exceptions of a failed lookup. *)
Inductive lookup_error : Type := KeyError | IndexError | ValueError.

(** [l.index(x)]: the position of the first occurrence. *)
Fixpoint index (x : string) (l : list string) : option nat :=
  match l with
  | [] => None
  | y :: r => if decide (x = y) then Some 0 else S <$> index x r
  end.

(** "Restore last format if possible" in [slotFileExport]: the extension
    [extn] and the filters given to [fd.selectNameFilter], in order;
    [lastformat] is the entry [export_lastformat] of the settings, if
    there is one.  A lookup that fails in the handler is not caught. *)
Definition restore_format (lastformat : option string) (formats : list format)
  : (string * list string) + lookup_error :=
  let t := export_tables formats in
  let attempt : (string * list string) + lookup_error :=
    match lastformat with
    | None => inr KeyError
    | Some filt =>
        match index filt (filters t) with
        | None => inr ValueError
        | Some i =>
            match formats !! i with
            | None => inr IndexError
            | Some f =>
                match f.1 with
                | [] => inr IndexError
                | extn :: _ => inl (extn, [filt])
                end
            end
        end
    end in
  match attempt with
  | inl r => inl r
  | inr _ =>
      match exttofilter t !! "pdf" with
      | Some f => inl ("pdf", from_option (fun filt => [filt]) [] lastformat ++ [f])
      | None => inr KeyError
      end
  end.

(** [s[1:]] *)
Definition behead (s : string) : string :=
  match s with
  | EmptyString => EmptyString
  | String _ r => r
  end.

(** The name of the file that is exported, from the filter and the file
    the user has selected: "add a default extension if one isn't
    supplied" in [slotFileExport]. *)
Definition export_filename (splitext : string -> string * string)
    (formats : list format) (filterused filename : string)
  : string + lookup_error :=
  let t := export_tables formats in
  match filtertoext t !! filterused with
  | None => inr KeyError
  | Some chosenextns =>
      let ext := behead (splitext filename).2 in
      if decide ((ext ∉ validextns t) /\ (ext ∉ chosenextns)) then
        match chosenextns with
        | [] => inr IndexError
        | e :: _ => inl (filename +:+ "." +:+ e)
        end
      else inl filename
  end.

(** ** A sample desktop *)

Module SampleUI.

(** The part of a name from its last dot on, if it has a dot. *)
Fixpoint split_last_dot (s : string) : option (string * string) :=
  match s with
  | EmptyString => None
  | String c r =>
      match split_last_dot r with
      | Some (root, ext) => Some (String c root, ext)
      | None => if decide (String c EmptyString = ".") then Some (EmptyString, s) else None
      end
  end.

Definition sample_splitext (s : string) : string * string :=
  default (s, "") (split_last_dot s).

Definition EACCES : exn := mkExn EnvironmentError "Permission denied" "IOError".

(** Nothing can be written below [/readonly]; a document that is written
    is unmodified afterwards. *)
Definition sample_write (filename : string) (d : Document) : save_result :=
  if decide (filename = "/readonly/fig.vsz") then SaveRaises EACCES
  else Saved (setModified false d).

Definition desktop : Desktop :=
  {| splitext := sample_splitext; write_document := sample_write |}.

(** The sample installation, started in unsafe mode. *)
Definition unsafe_host : Host :=
  {| open_read := open_read Sample.host;
     compileChecked := compileChecked Sample.host;
     unsafe_mode := true;
     eval_context := eval_context Sample.host;
     safe_commands := safe_commands Sample.host;
     unsafe_commands := unsafe_commands Sample.host;
     command := command Sample.host;
     applyOperation := applyOperation Sample.host;
     stylesheet_default := stylesheet_default Sample.host;
     custom_default := custom_default Sample.host;
     dirname_usecwd := dirname_usecwd Sample.host;
     con_stdout := con_stdout Sample.host;
     con_stderr := con_stderr Sample.host;
     abspath := abspath Sample.host;
     path_dirname := path_dirname Sample.host |}.

(** A window with a modified document that has no file name yet. *)
Definition unnamed : World :=
  mkWorld Sample.edited 1 2 [] "" "/tmp" "/tmp" ["/home/user/b.vsz"; "/home/user/a.vsz"].

(** Two documents and a picture, dropped together. *)
Definition dropped : DropEvent :=
  mkDropEvent true true ["/home/user/a.vsz"; "/home/user/notes.txt"; "/home/user/b.vsz"].

Definition formats : list format :=
  [(["pdf"], "Portable Document Format"); (["png"], "Portable Network Graphics");
   (["svg"], "Scalable Vector Graphics")].

End SampleUI.

(** ** The menu of the plugins *)

(** What [definePlugins] reads of a plugin class. *)
Record plugin : Type := mkPlugin {
  plugin_menu : list string;       (* pluginkls.menu *)
  has_parameters : bool;
  description_short : string
}.

(** An entry of the menu [definePlugins] builds: the name of an action,
    or the list [[name, cmpt, entries]] of a submenu. *)
#[warnings="-register-all"]
Inductive menu_item : Type :=
| MenuAction (actname : string)
| SubMenu (name cmpt : string) (items : list menu_item).

(** [c[0]] for an entry [c]: the name of a submenu, the first character
    of the name of an action. *)
Definition item_key (c : menu_item) : string :=
  match c with
  | SubMenu name _ _ => name
  | MenuAction EmptyString => EmptyString
  | MenuAction (String a _) => String a EmptyString
  end.

(** One pass of "build up menu from tuple of names": the first entry of
    [menulook] of which [c[0]] is [name] becomes the new [menulook], and a
    new submenu is appended when there is none; [k] is what is done with
    the new [menulook].  Going on with an entry that is the name of an
    action ends in an [AttributeError] or an [IndexError], as a string has
    no [append]. *)
Fixpoint enter (name cmpt : string)
    (k : list menu_item -> option (list menu_item)) (menulook : list menu_item)
  : option (list menu_item) :=
  match menulook with
  | [] => (fun sub => [SubMenu name cmpt sub]) <$> k []
  | c :: rest =>
      if decide (item_key c = name) then
        match c with
        | SubMenu n cm items => (fun sub => SubMenu n cm sub :: rest) <$> k items
        | MenuAction _ => None
        end
      else (fun rest' => c :: rest') <$> enter name cmpt k rest
  end.

(** The loop over [pluginkls.menu[:-1]] and the final
    [menulook.append(actname)]; [prefix] is ['.'.join(namebuild)]. *)
Fixpoint place (cmpts : list string) (prefix actname : string)
    (menulook : list menu_item) : option (list menu_item) :=
  match cmpts with
  | [] => Some (menulook ++ [MenuAction actname])
  | cmpt :: rest =>
      let name := prefix +:+ "." +:+ cmpt in
      enter name cmpt (place rest name actname) menulook
  end.

(** The name of the action of a plugin:
    [menuname + '.' + '.'.join(pluginkls.menu)]. *)
Definition actname_of (menuname : string) (p : plugin) : string :=
  menuname +:+ "." +:+ String.concat "." (plugin_menu p).

(** One pass of the loop over the plugins: the menu and the actions
    (description and text) afterwards; [None] when an exception is
    raised. *)
Definition define_plugin (menuname : string)
    (st : list menu_item * gmap string (string * string)) (p : plugin)
  : option (list menu_item * gmap string (string * string)) :=
  match last (plugin_menu p) with
  | None => None
  | Some l =>
      let actname := actname_of menuname p in
      let text := if has_parameters p then l +:+ "..." else l in
      let actions := <[actname := (description_short p, text)]> st.2 in
      (fun menu => (menu, actions))
        <$> place (removelast (plugin_menu p)) menuname actname st.1
  end.

(** [MainWindow.definePlugins] *)
Definition definePlugins (pluginlist : list plugin)
    (actions : gmap string (string * string)) (menuname : string)
  : option (list menu_item * gmap string (string * string)) :=
  foldl (fun acc p => acc ≫= fun st => define_plugin menuname st p)
        (Some ([], actions)) pluginlist.

(** The actions of a menu, submenus included. *)
Fixpoint item_actions (c : menu_item) : list string :=
  match c with
  | MenuAction a => [a]
  | SubMenu _ _ items => flat_map item_actions items
  end.

Definition menu_actions (menu : list menu_item) : list string :=
  flat_map item_actions menu.

(** The names of the submenus among the entries of one menu. *)
Fixpoint submenu_names (menu : list menu_item) : list string :=
  match menu with
  | [] => []
  | SubMenu name _ _ :: rest => name :: submenu_names rest
  | MenuAction _ :: rest => submenu_names rest
  end.

(** No menu, at any depth, has two submenus of the same name. *)
Fixpoint submenus_distinct_item (c : menu_item) : Prop :=
  match c with
  | MenuAction _ => True
  | SubMenu _ _ items =>
      NoDup (submenu_names items) /\
      fold_right (fun x acc => submenus_distinct_item x /\ acc) True items
  end.

Definition submenus_distinct (menu : list menu_item) : Prop :=
  NoDup (submenu_names menu) /\
  fold_right (fun x acc => submenus_distinct_item x /\ acc) True menu.

(** The action [a] is an entry of the submenu reached from [menu]
    through the submenus named by the components [cmpts], below
    [prefix]. *)
Fixpoint action_at (cmpts : list string) (prefix a : string)
    (menu : list menu_item) : Prop :=
  match cmpts with
  | [] => MenuAction a ∈ menu
  | cmpt :: rest =>
      exists cm items,
        SubMenu (prefix +:+ "." +:+ cmpt) cm items ∈ menu /\
        action_at rest (prefix +:+ "." +:+ cmpt) a items
  end.

Module SamplePlugins.

Definition plugins : list plugin :=
  [mkPlugin ["Filter"; "Smooth"] true "Smooth a dataset";
   mkPlugin ["Subtract"] true "Subtract two datasets";
   mkPlugin ["Filter"; "Clip"] false "Clip a dataset"].

End SamplePlugins.

(** ** Properties *)

(** An event is not among the members of an explicit list. *)
Ltac not_elem H :=
  repeat (apply elem_of_cons in H as [H|H]; [discriminate|]);
  by apply elem_of_nil in H.

(** An event of a class the list has none of is not in the list. *)
Ltac by_class HF HI :=
  rewrite Forall_forall in HF; apply HF in HI; discriminate.

(** An event is a member of an explicit list. *)
Ltac is_elem := repeat first [apply list_elem_of_here | apply list_elem_of_further].

Section LoaderProperties.

Context (h : Host).

Implicit Types (env : gmap string binding) (st : ExecState) (evs : list event).


(** *** What a call does to the trust flag and which events it causes *)

Lemma call_command_events name args st st' evs r :
  call_command h name args st = (st', evs, r) ->
  evs = [EvCommand name args] /\ safenow st' = safenow st /\
  exec_answers st' = exec_answers st.
Proof.
  unfold call_command. destruct (command h name args (exec_doc st)) as [d r'].
  intros [= <- <- <-]. auto.
Qed.

(** The four ways through a wrapper. *)
Lemma wrapped_cases name args st st' evs r :
  wrapped h name args st = (st', evs, r) ->
  (safenow st = true /\ safenow st' = true /\ evs = [EvCommand name args] /\
   exec_answers st' = exec_answers st /\
   r = discard (command h name args (exec_doc st)).2) \/
  (safenow st = false /\ exists rest,
     exec_ (exec_answers st) = (false, rest) /\
     st' = mkExec false (exec_doc st) rest /\
     evs = [EvRestoreOverrideCursor; EvUnsafeVeuszCmdMsgBox false] /\
     r = Returns VNone) \/
  (safenow st = false /\ exists rest,
     exec_ (exec_answers st) = (true, rest) /\
     safenow st' = true /\ exec_answers st' = rest /\
     evs = [EvRestoreOverrideCursor; EvUnsafeVeuszCmdMsgBox true; EvCommand name args] /\
     r = discard (command h name args (exec_doc st)).2).
Proof.
  unfold wrapped. destruct (safenow st) eqn:Hs; simpl.
  - destruct (command h name args (exec_doc st)) as [d r'].
    intros [= <- <- <-]. left. auto.
  - destruct (exec_ (exec_answers st)) as [yes rest] eqn:Ha.
    destruct yes; simpl.
    + destruct (command h name args (exec_doc st)) as [d r'].
      intros [= <- <- <-]. right; right. split; [done|]. exists rest. auto.
    + intros [= <- <- <-]. right; left. split; [done|]. exists rest.
      rewrite <- Hs. auto.
Qed.

Lemma call_cases env name args st st' evs r :
  call h env name args st = (st', evs, r) ->
  (exists c, env !! name = Some (Command c) /\ call_command h c args st = (st', evs, r)) \/
  (exists c, env !! name = Some (UnsafeCaller c) /\ wrapped h c args st = (st', evs, r)) \/
  (st' = st /\ evs = [] /\ exists e, r = Raises e).
Proof.
  unfold call. destruct (env !! name) as [[v| |c|c]|]; intros H.
  - right; right. inversion H; eauto.
  - right; right. inversion H; eauto.
  - left; eauto.
  - right; left; eauto.
  - right; right. inversion H; eauto.
Qed.

(** A call made in a trusted state shows no prompt and leaves the state
    trusted. *)
Lemma call_trusted env name args st st' evs r :
  call h env name args st = (st', evs, r) ->
  safenow st = true -> safenow st' = true /\ no_cmd_prompt evs.
Proof.
  intros Hc Hs. apply call_cases in Hc as [(c & _ & Hc)|[(c & _ & Hc)|(-> & -> & _)]].
  - apply call_command_events in Hc as (-> & -> & _).
    split; [done|]. by repeat constructor.
  - apply wrapped_cases in Hc as [(_ & Hs' & -> & _)|[(Hf & _)|(Hf & _)]];
      [|congruence..].
    split; [done|]. by repeat constructor.
  - split; [done|]. constructor.
Qed.

(** An accepted prompt in the events of one call: the state is trusted
    afterwards and the call shows nothing more. *)
Lemma call_accept env name args st st' evs r l1 l2 :
  call h env name args st = (st', evs, r) ->
  evs = l1 ++ EvUnsafeVeuszCmdMsgBox true :: l2 ->
  safenow st' = true /\ no_cmd_prompt l2.
Proof.
  intros Hc He. apply call_cases in Hc as [(c & _ & Hc)|[(c & _ & Hc)|(-> & -> & _)]].
  - apply call_command_events in Hc as (-> & _).
    destruct l1 as [|? [|? ?]]; discriminate.
  - apply wrapped_cases in Hc as [(_ & _ & -> & _)|[(_ & rest & _ & _ & -> & _)|
      (_ & rest & _ & Hs & _ & -> & _)]].
    + destruct l1 as [|? [|? ?]]; discriminate.
    + destruct l1 as [|? [|? [|? ?]]]; discriminate.
    + split; [done|].
      destruct l1 as [|? [|? [|? [|? ?]]]]; simplify_eq/=.
      by repeat constructor.
  - destruct l1; discriminate.
Qed.

Lemma cexec_trusted env s : forall st st' evs o,
  cexec h env s st = (st', evs, o) ->
  safenow st = true -> safenow st' = true /\ no_cmd_prompt evs.
Proof.
  induction s as [|e|name args k IH]; intros st st' evs o; simpl.
  - intros [= <- <- <-] Hs. split; [done|constructor].
  - intros [= <- <- <-] Hs. split; [done|constructor].
  - destruct (call h env name args st) as [[st1 evs1] r] eqn:Hc.
    destruct (cexec h env (k r) st1) as [[st2 evs2] o2] eqn:Hk.
    intros [= <- <- <-] Hs.
    destruct (call_trusted _ _ _ _ _ _ _ Hc Hs) as [Hs1 Hn1].
    destruct (IH _ _ _ _ _ Hk Hs1) as [Hs2 Hn2].
    split; [done|]. by apply Forall_app.
Qed.

Lemma cexec_accept env s : forall st st' evs o l1 l2,
  cexec h env s st = (st', evs, o) ->
  evs = l1 ++ EvUnsafeVeuszCmdMsgBox true :: l2 ->
  safenow st' = true /\ no_cmd_prompt l2.
Proof.
  induction s as [|e|name args k IH]; intros st st' evs o l1 l2; simpl.
  - intros [= <- <- <-] He. destruct l1; discriminate.
  - intros [= <- <- <-] He. destruct l1; discriminate.
  - destruct (call h env name args st) as [[st1 evs1] r] eqn:Hc.
    destruct (cexec h env (k r) st1) as [[st2 evs2] o2] eqn:Hk.
    intros [= <- <- <-] He.
    apply app_eq_inv in He as [(m & -> & Hm)|(m & -> & ->)].
    + destruct m as [|x m].
      * simpl in Hm. symmetry in Hm. eapply (IH _ _ _ _ _ []); eauto.
      * injection Hm as <- ->.
        destruct (call_accept _ _ _ _ _ _ _ _ _ Hc eq_refl) as [Hs1 Hn1].
        destruct (cexec_trusted _ _ _ _ _ _ Hk Hs1) as [Hs2 Hn2].
        split; [done|]. by apply Forall_app.
    + eapply IH; eauto.
Qed.

(** *** Which events each phase can cause *)

Lemma cexec_events env s : forall st st' evs o,
  cexec h env s st = (st', evs, o) -> Forall (fun e => is_exec_event e = true) evs.
Proof.
  induction s as [|e|name args k IH]; intros st st' evs o; simpl.
  - intros [= <- <- <-]. constructor.
  - intros [= <- <- <-]. constructor.
  - destruct (call h env name args st) as [[st1 evs1] r] eqn:Hc.
    destruct (cexec h env (k r) st1) as [[st2 evs2] o2] eqn:Hk.
    intros [= <- <- <-]. apply Forall_app. split; [|by eapply IH].
    apply call_cases in Hc as [(c & _ & Hc)|[(c & _ & Hc)|(_ & -> & _)]].
    + apply call_command_events in Hc as (-> & _). by repeat constructor.
    + apply wrapped_cases in Hc as [(_ & _ & -> & _)|[(_ & rest & _ & _ & -> & _)|
        (_ & rest & _ & _ & _ & -> & _)]]; by repeat constructor.
    + constructor.
Qed.

Lemma compile_loop_events text filename ans : forall unsafe x u a evs,
  compile_loop h text filename unsafe ans = (x, u, a, evs) ->
  Forall (fun e => is_loop_event e = true) evs.
Proof.
  induction ans as [|b ans IH]; intros unsafe x u a evs; simpl;
    destruct (compileChecked h text filename unsafe) as [c|e];
    try (intros [= <- <- <- <-]; by repeat constructor).
  - destruct (exn_cls e); intros [= <- <- <- <-]; by repeat constructor.
  - destruct (exn_cls e); try (intros [= <- <- <- <-]; by repeat constructor).
    destruct b; [|intros [= <- <- <- <-]; by repeat constructor].
    destruct (compile_loop h text filename true ans) as [[[x' u'] a'] evs'] eqn:Hl.
    intros [= <- <- <- <-]. repeat constructor. by eapply IH.
Qed.

Lemma loadDefaultStylesheet_events d d' evs :
  loadDefaultStylesheet h d = (d', evs) -> Forall (fun e => is_setup_event e = true) evs.
Proof.
  unfold loadDefaultStylesheet. case_decide; [intros [= <- <-]; constructor|].
  destruct (applyOperation h _ d); intros [= <- <-]; by repeat constructor.
Qed.

Lemma loadDefaultCustomDefinitions_events d d' evs :
  loadDefaultCustomDefinitions h d = (d', evs) ->
  Forall (fun e => is_setup_event e = true) evs.
Proof.
  unfold loadDefaultCustomDefinitions. case_decide; [intros [= <- <-]; constructor|].
  destruct (applyOperation h _ d); intros [= <- <-]; by repeat constructor.
Qed.

Lemma setupDefaultDoc_events d d' evs :
  setupDefaultDoc h d = (d', evs) ->
  EvDoc MakeDefaultDoc ∈ evs /\ Forall (fun e => is_setup_event e = true) evs.
Proof.
  unfold setupDefaultDoc.
  destruct (loadDefaultStylesheet h (makeDefaultDoc d)) as [d2 evs2] eqn:H2.
  destruct (loadDefaultCustomDefinitions h d2) as [d3 evs3] eqn:H3.
  intros [= <- <-]. split; [by left|].
  constructor; [done|]. apply Forall_app.
  eauto using loadDefaultStylesheet_events, loadDefaultCustomDefinitions_events.
Qed.

(** *** The compile loop *)

Lemma compile_loop_head text filename ans unsafe x u a evs :
  compile_loop h text filename unsafe ans = (x, u, a, evs) ->
  exists l, evs = EvCompileChecked unsafe :: l.
Proof.
  destruct ans as [|b ans]; simpl;
    destruct (compileChecked h text filename unsafe) as [c|e];
    try (intros [= <- <- <- <-]; by eexists).
  - destruct (exn_cls e); intros [= <- <- <- <-]; by eexists.
  - destruct (exn_cls e); try (intros [= <- <- <- <-]; by eexists).
    destruct b; [|intros [= <- <- <- <-]; by eexists].
    destruct (compile_loop h text filename true ans) as [[[x' u'] a'] evs'].
    intros [= <- <- <- <-]. by eexists.
Qed.

(** [unsafe] is never reset. *)
Lemma compile_loop_unsafe text filename ans : forall unsafe x u a evs,
  compile_loop h text filename unsafe ans = (x, u, a, evs) ->
  unsafe = true -> u = true.
Proof.
  induction ans as [|b ans IH]; intros unsafe x u a evs; simpl;
    destruct (compileChecked h text filename unsafe) as [c|e];
    try (intros [= <- <- <- <-]; done).
  - destruct (exn_cls e); intros [= <- <- <- <-]; done.
  - destruct (exn_cls e); try (intros [= <- <- <- <-]; done).
    destruct b; [|intros [= <- <- <- <-]; done].
    destruct (compile_loop h text filename true ans) as [[[x' u'] a'] evs'] eqn:Hl.
    intros [= <- <- <- <-] _. by eapply IH.
Qed.

(** After an accepted whole-file prompt the compiler runs next, with
    [ignoresecurity=True], and [unsafe] is [True] when the loop is left. *)
Lemma compile_loop_accept text filename ans : forall unsafe x u a evs l1 l2,
  compile_loop h text filename unsafe ans = (x, u, a, evs) ->
  evs = l1 ++ EvUnsafeCmdMsgBox true :: l2 ->
  u = true /\ exists l3, l2 = EvCompileChecked true :: l3.
Proof.
  induction ans as [|b ans IH]; intros unsafe x u a evs l1 l2; simpl;
    destruct (compileChecked h text filename unsafe) as [c|e].
  - intros [= <- <- <- <-] He. destruct l1 as [|? [|? ?]]; simplify_eq/=.
  - destruct (exn_cls e); intros [= <- <- <- <-] He;
      destruct l1 as [|? [|? [|? [|? ?]]]]; simplify_eq/=.
  - intros [= <- <- <- <-] He. destruct l1 as [|? [|? ?]]; simplify_eq/=.
  - destruct (exn_cls e);
      try (intros [= <- <- <- <-] He;
           destruct l1 as [|? [|? [|? [|? ?]]]]; simplify_eq/=).
    destruct b.
    + destruct (compile_loop h text filename true ans) as [[[x' u'] a'] evs'] eqn:Hl.
      intros [= <- <- <- <-] He.
      destruct l1 as [|? [|? [|? l1]]]; simplify_eq/=.
      * split; [by eapply compile_loop_unsafe|by eapply compile_loop_head].
      * by eapply IH.
    + intros [= <- <- <- <-] He.
      destruct l1 as [|? [|? [|? [|? ?]]]]; simplify_eq/=.
Qed.

(** A declined whole-file prompt ends the loop with [return]. *)
Lemma compile_loop_decline text filename ans : forall unsafe x u a evs,
  compile_loop h text filename unsafe ans = (x, u, a, evs) ->
  EvUnsafeCmdMsgBox false ∈ evs -> x = Return_.
Proof.
  induction ans as [|b ans IH]; intros unsafe x u a evs; simpl;
    destruct (compileChecked h text filename unsafe) as [c|e].
  - intros [= <- <- <- <-] He. not_elem He.
  - by destruct (exn_cls e); intros [= <- <- <- <-] He; try not_elem He.
  - intros [= <- <- <- <-] He. not_elem He.
  - destruct (exn_cls e); try (by intros [= <- <- <- <-] He; try not_elem He).
    destruct b; [|by intros [= <- <- <- <-]].
    destruct (compile_loop h text filename true ans) as [[[x' u'] a'] evs'] eqn:Hl.
    intros [= <- <- <- <-] He.
    repeat (apply elem_of_cons in He as [He|He]; [discriminate|]).
    by eapply IH.
Qed.

(** *** The shape of a load *)

Lemma openFileInWindow_inv filename w w' evs o :
  openFileInWindow h filename w = (w', evs, o) ->
  (exists e d evs0,
     open_read h filename = ReadRaises e /\ exn_cls e = EnvironmentError /\
     setupDefaultDoc h (document w) = (d, evs0) /\ w' = set_document d w /\
     evs = EvSetOverrideCursor :: EvRestoreOverrideCursor
             :: EvCritical filename (exn_str e) :: evs0 /\
     o = Returned) \/
  (exists e,
     open_read h filename = ReadRaises e /\ exn_cls e <> EnvironmentError /\
     w' = w /\ evs = [EvSetOverrideCursor] /\ o = Propagated e) \/
  (exists text x u a evs1,
     open_read h filename = ReadOk text /\
     compile_loop h text filename (unsafe_mode h) (answers w) = (x, u, a, evs1) /\
     ((x = Return_ /\ w' = set_answers a w /\ evs = EvSetOverrideCursor :: evs1 /\
       o = Returned) \/
      (exists e, x = Propagate e /\ w' = set_answers a w /\
         evs = EvSetOverrideCursor :: evs1 /\ o = Propagated e) \/
      (exists c st evs2 r tail,
         x = Break c /\
         cexec h (build_env h filename) c
           (mkExec u (suspendUpdates (wipe (document w))) a) = (st, evs2, r) /\
         evs = (EvSetOverrideCursor :: evs1
                  ++ [EvDoc Wipe; EvDoc SuspendUpdates;
                      EvAddImportPath (path_dirname h (abspath h filename))])
                 ++ evs2 ++ tail /\
         Forall (fun e => is_tail_event e = true) tail))).
Proof.
  unfold openFileInWindow. intros H.
  destruct (open_read h filename) as [text|e] eqn:Hread.
  - right; right.
    destruct (compile_loop h text filename (unsafe_mode h) (answers w))
      as [[[x u] a] evs1] eqn:Hloop.
    exists text, x, u, a, evs1. split; [done|]. split; [done|].
    destruct x as [c| |e]; simpl in H.
    + right; right.
      destruct (cexec h (build_env h filename) c _) as [[st evs2] r] eqn:Hexec.
      destruct r as [e|].
      * destruct (is_Exception e); injection H as <- <- <-.
        -- eexists c, st, evs2, (Some e), _. split; [done|]. split; [done|].
           split; [simpl; by rewrite <- !app_assoc|]. by repeat constructor.
        -- exists c, st, evs2, (Some e), []. split; [done|]. split; [done|].
           split; [simpl; by rewrite <- !app_assoc, app_nil_r|]. constructor.
      * injection H as <- <- <-.
        eexists c, st, evs2, None, _. split; [done|]. split; [done|].
        split; [simpl; by rewrite <- !app_assoc|]. by repeat constructor.
    + injection H as <- <- <-. by left.
    + injection H as <- <- <-. right; left. by exists e.
  - destruct (exn_cls e) eqn:Hcls.
    + destruct (setupDefaultDoc h (document w)) as [d evs0] eqn:Hsetup.
      injection H as <- <- <-. left. by exists e, d, evs0.
    + injection H as <- <- <-. right; left. exists e. by rewrite Hcls.
    + injection H as <- <- <-. right; left. exists e. by rewrite Hcls.
    + injection H as <- <- <-. right; left. exists e. by rewrite Hcls.
Qed.

(** *** Locating an event in the events of a load *)

Lemma split_left (x : event) B C : forall l1 l2,
  x ∉ C -> B ++ C = l1 ++ x :: l2 ->
  exists k2, B = l1 ++ x :: k2 /\ l2 = k2 ++ C.
Proof.
  induction B as [|b B IH]; intros l1 l2 HC He; simpl in He.
  - exfalso. apply HC. rewrite He. apply elem_of_app. right. by left.
  - destruct l1 as [|y l1]; simpl in He; injection He as -> He.
    + subst l2. by exists B.
    + destruct (IH _ _ HC He) as (k2 & -> & ->). by exists k2.
Qed.

Lemma split_middle (x : event) A B C : forall l1 l2,
  x ∉ A -> x ∉ C -> A ++ B ++ C = l1 ++ x :: l2 ->
  exists k1 k2, B = k1 ++ x :: k2 /\ l2 = k2 ++ C.
Proof.
  induction A as [|a A IH]; intros l1 l2 HA HC He; simpl in He.
  - destruct (split_left _ _ _ _ _ HC He) as (k2 & -> & ->). by exists l1, k2.
  - destruct l1 as [|y l1]; simpl in He; injection He as -> He.
    + exfalso. apply HA. by left.
    + eapply IH; [|done..]. intros Hin. apply HA. by right.
Qed.

Lemma loop_no_cmd_prompt evs :
  Forall (fun e => is_loop_event e = true) evs -> no_cmd_prompt evs.
Proof. intros H. eapply Forall_impl; [exact H|]. by intros []. Qed.

Lemma tail_no_cmd_prompt evs :
  Forall (fun e => is_tail_event e = true) evs -> no_cmd_prompt evs.
Proof. intros H. eapply Forall_impl; [exact H|]. by intros []. Qed.

Lemma setup_no_cmd_prompt evs :
  Forall (fun e => is_setup_event e = true) evs -> no_cmd_prompt evs.
Proof. intros H. eapply Forall_impl; [exact H|]. by intros []. Qed.

Lemma no_cmd_prompt_elem evs b :
  no_cmd_prompt evs -> EvUnsafeVeuszCmdMsgBox b ∉ evs.
Proof. intros Hn Hin. unfold no_cmd_prompt in Hn. rewrite Forall_forall in Hn. by apply Hn in Hin. Qed.

(** Where a whole-file prompt can be: among the events of the compile
    loop. *)
Lemma file_prompt_inv filename w w' evs o b :
  openFileInWindow h filename w = (w', evs, o) ->
  EvUnsafeCmdMsgBox b ∈ evs ->
  exists text x u a evs1 rest,
    open_read h filename = ReadOk text /\
    compile_loop h text filename (unsafe_mode h) (answers w) = (x, u, a, evs1) /\
    EvUnsafeCmdMsgBox b ∈ evs1 /\
    evs = (EvSetOverrideCursor :: evs1) ++ rest /\
    (forall b', EvUnsafeCmdMsgBox b' ∉ rest) /\
    (u = true -> no_cmd_prompt rest) /\
    (x = Return_ -> rest = [] /\ w' = set_answers a w /\ o = Returned).
Proof.
  intros H Hin.
  apply openFileInWindow_inv in H as
    [(e & d & evs0 & _ & _ & Hs & _ & -> & _)|[(e & _ & _ & _ & -> & _)|
     (text & x & u & a & evs1 & Hr & Hl & H)]].
  - apply setupDefaultDoc_events in Hs as [_ Hs].
    repeat (apply elem_of_cons in Hin as [Hin|Hin]; [discriminate|]).
    by_class Hs Hin.
  - not_elem Hin.
  - exists text, x, u, a, evs1.
    destruct H as [(-> & -> & -> & ->)|[(e & -> & -> & -> & ->)|
      (c & st & evs2 & r & tail & -> & Hx & -> & Ht)]].
    + exists []. rewrite app_nil_r.
      apply elem_of_cons in Hin as [Hin|Hin]; [discriminate|].
      repeat split; try done. all: try constructor. intros b' Hb. by apply elem_of_nil in Hb.
    + exists []. rewrite app_nil_r.
      apply elem_of_cons in Hin as [Hin|Hin]; [discriminate|].
      repeat split; try done. all: try constructor. intros b' Hb. by apply elem_of_nil in Hb.
    + eexists. split; [done|]. split; [done|].
      assert (He := cexec_events _ _ _ _ _ _ Hx).
      assert (Hrest : forall b', EvUnsafeCmdMsgBox b' ∉
          [EvDoc Wipe; EvDoc SuspendUpdates;
           EvAddImportPath (path_dirname h (abspath h filename))] ++ evs2 ++ tail).
      { intros b' Hb. apply elem_of_app in Hb as [Hb|Hb]; [not_elem Hb|].
        apply elem_of_app in Hb as [Hb|Hb]; [by_class He Hb|by_class Ht Hb]. }
      split; [|split; [|split; [exact Hrest|split]]].
      * simpl in Hin. rewrite <- !app_assoc in Hin.
        apply elem_of_cons in Hin as [Hin|Hin]; [discriminate|].
        apply elem_of_app in Hin as [Hin|Hin]; [done|].
        by apply Hrest in Hin.
      * simpl. by rewrite <- !app_assoc.
      * intros ->. apply Forall_app. split; [by repeat constructor|].
        apply Forall_app. split; [|by apply tail_no_cmd_prompt].
        by eapply cexec_trusted.
      * discriminate.
Qed.

Lemma decline_inv filename w w' evs o :
  openFileInWindow h filename w = (w', evs, o) ->
  EvUnsafeCmdMsgBox false ∈ evs ->
  exists text u a evs1,
    open_read h filename = ReadOk text /\
    compile_loop h text filename (unsafe_mode h) (answers w) = (Return_, u, a, evs1) /\
    evs = EvSetOverrideCursor :: evs1 /\ w' = set_answers a w /\ o = Returned.
Proof.
  intros H Hin.
  destruct (file_prompt_inv _ _ _ _ _ _ H Hin)
    as (text & x & u & a & evs1 & rest & Hr & Hl & Hin1 & -> & _ & _ & Hx).
  assert (x = Return_) as -> by (by eapply compile_loop_decline).
  destruct (Hx eq_refl) as (-> & -> & ->).
  exists text, u, a, evs1. by rewrite app_nil_r.
Qed.

(** *** The trust flag *)

(** C1.  Once the user has accepted a per-command prompt, the trust flag
    [safenow[0]] is true and remains true: whatever script is executed in
    a trusted state ends in a trusted state and shows no per-command
    prompt; when a script execution contains an accepted per-command
    prompt, it ends trusted and shows no per-command prompt after it; and
    in the events of a whole load nothing that follows an accepted
    per-command prompt is a per-command prompt. *)
Theorem unsafe_confirmed_is_sticky :
  (forall env s st st' evs o,
     cexec h env s st = (st', evs, o) ->
     safenow st = true -> safenow st' = true /\ no_cmd_prompt evs) /\
  (forall env s st st' evs o l1 l2,
     cexec h env s st = (st', evs, o) ->
     evs = l1 ++ EvUnsafeVeuszCmdMsgBox true :: l2 ->
     safenow st' = true /\ no_cmd_prompt l2) /\
  (forall filename w w' evs o l1 l2,
     openFileInWindow h filename w = (w', evs, o) ->
     evs = l1 ++ EvUnsafeVeuszCmdMsgBox true :: l2 ->
     no_cmd_prompt l2).
Proof.
  split; [intros; by eapply cexec_trusted|].
  split; [intros; by eapply cexec_accept|].
  intros filename w w' evs o l1 l2 H He.
  assert (Hin : EvUnsafeVeuszCmdMsgBox true ∈ evs).
  { rewrite He. apply elem_of_app. right. by left. }
  apply openFileInWindow_inv in H as
    [(e & d & evs0 & _ & _ & Hs & _ & -> & _)|[(e & _ & _ & _ & -> & _)|
     (text & x & u & a & evs1 & Hr & Hl & H)]].
  - apply setupDefaultDoc_events in Hs as [_ Hs].
    repeat (apply elem_of_cons in Hin as [Hin|Hin]; [discriminate|]).
    by_class Hs Hin.
  - not_elem Hin.
  - assert (H1 := compile_loop_events _ _ _ _ _ _ _ _ Hl).
    destruct H as [(-> & -> & -> & ->)|[(e & -> & -> & -> & ->)|
      (c & st & evs2 & r & tail & -> & Hx & -> & Ht)]].
    + apply elem_of_cons in Hin as [Hin|Hin]; [discriminate|]. by_class H1 Hin.
    + apply elem_of_cons in Hin as [Hin|Hin]; [discriminate|]. by_class H1 Hin.
    + apply split_middle in He as (k1 & k2 & -> & ->).
      * apply Forall_app. split; [|by apply tail_no_cmd_prompt].
        by eapply cexec_accept.
      * intros Hi. apply elem_of_cons in Hi as [Hi|Hi]; [discriminate|].
        apply elem_of_app in Hi as [Hi|Hi]; [by_class H1 Hi|not_elem Hi].
      * intros Hi. by_class Ht Hi.
Qed.

(** C9.  When the user accepts the whole-file prompt, the compiler is
    run next with [ignoresecurity=True], the local [unsafe], from which
    the trust flag is initialised, is true when the compile loop is left,
    and no per-command prompt is shown in that load. *)
Theorem accepted_violation_trusts_execution filename w w' evs o :
  openFileInWindow h filename w = (w', evs, o) ->
  EvUnsafeCmdMsgBox true ∈ evs ->
  (forall l1 l2, evs = l1 ++ EvUnsafeCmdMsgBox true :: l2 ->
     exists l3, l2 = EvCompileChecked true :: l3) /\
  (forall text x u a evs1,
     open_read h filename = ReadOk text ->
     compile_loop h text filename (unsafe_mode h) (answers w) = (x, u, a, evs1) ->
     u = true) /\
  no_cmd_prompt evs.
Proof.
  intros H Hin.
  destruct (file_prompt_inv _ _ _ _ _ _ H Hin)
    as (text & x & u & a & evs1 & rest & Hr & Hl & Hin1 & -> & Hrest & Hu & _).
  apply list_elem_of_split in Hin1 as (k1 & k2 & ->).
  destruct (compile_loop_accept _ _ _ _ _ _ _ _ _ _ Hl eq_refl) as [-> _].
  split; [|split].
  - intros l1 l2 He. apply split_left in He as (m & He & ->); [|apply Hrest].
    destruct l1 as [|y l1]; simpl in He; [discriminate|].
    injection He as <- He.
    destruct (compile_loop_accept _ _ _ _ _ _ _ _ _ _ Hl He) as [_ [l3 ->]].
    by eexists.
  - intros text' x' u' a' evs1' Hr' Hl'. congruence.
  - apply Forall_app. split; [|by apply Hu].
    constructor; [done|]. apply loop_no_cmd_prompt. by eapply compile_loop_events.
Qed.

(** *** Declining the whole-file prompt *)

(** C2.  When the user declines the whole-file prompt, the load returns,
    no command has been invoked, no method of the document has been
    called (no wipe, no default-document setup), and the document is the
    one from before the load. *)
Theorem decline_leaves_document_untouched filename w w' evs o :
  openFileInWindow h filename w = (w', evs, o) ->
  EvUnsafeCmdMsgBox false ∈ evs ->
  o = Returned /\
  (forall name args, EvCommand name args ∉ evs) /\
  (forall op, EvDoc op ∉ evs) /\
  document w' = document w.
Proof.
  intros H Hin.
  destruct (decline_inv _ _ _ _ _ H Hin) as (text & u & a & evs1 & _ & Hl & -> & -> & ->).
  assert (H1 := compile_loop_events _ _ _ _ _ _ _ _ Hl).
  split; [done|]. split; [|split; [|done]].
  - intros name args Hi. apply elem_of_cons in Hi as [Hi|Hi]; [discriminate|].
    by_class H1 Hi.
  - intros op Hi. apply elem_of_cons in Hi as [Hi|Hi]; [discriminate|].
    by_class H1 Hi.
Qed.

(** C3, as amended.  When the user declines the whole-file prompt, the
    load returns at once: the default-document setup is not performed,
    and the window is as before the load but for the answers the user has
    given. *)
Theorem decline_performs_no_setup filename w w' evs o :
  openFileInWindow h filename w = (w', evs, o) ->
  EvUnsafeCmdMsgBox false ∈ evs ->
  o = Returned /\
  (EvDoc MakeDefaultDoc ∉ evs) /\
  w' = set_answers (answers w') w.
Proof.
  intros H Hin.
  destruct (decline_inv _ _ _ _ _ H Hin) as (text & u & a & evs1 & _ & Hl & -> & -> & ->).
  assert (H1 := compile_loop_events _ _ _ _ _ _ _ _ Hl).
  split; [done|]. split; [|done].
  intros Hi. apply elem_of_cons in Hi as [Hi|Hi]; [discriminate|].
  by_class H1 Hi.
Qed.

(** *** How a load ends *)

(** Whenever [openFileInWindow] returns, [sys.stdout] and [sys.stderr]
    are the streams from before the load. *)
Lemma streams_restored_when_returned filename w w' evs :
  openFileInWindow h filename w = (w', evs, Returned) ->
  sys_stdout w' = sys_stdout w /\ sys_stderr w' = sys_stderr w.
Proof.
  unfold openFileInWindow.
  destruct (open_read h filename) as [text|e].
  - destruct (compile_loop h text filename (unsafe_mode h) (answers w))
      as [[[x u] a] evs1].
    destruct x as [c| |e]; simpl; [|by intros [= <- _]|done].
    destruct (cexec h (build_env h filename) c _) as [[st evs2] [e|]].
    + destruct (is_Exception e); [|done]. by intros [= <- _].
    + destruct (dirname_usecwd h); by intros [= <- _].
  - destruct (exn_cls e); try done.
    destruct (setupDefaultDoc h (document w)) as [d evs0]. by intros [= <- _].
Qed.

(** When the script lets an exception escape that does not derive from
    [Exception], the exception leaves [openFileInWindow] and the streams
    of the console stay in [sys.stdout] and [sys.stderr]. *)
Lemma streams_redirected_when_propagated filename w text c u a evs1 st evs2 e w' evs o :
  open_read h filename = ReadOk text ->
  compile_loop h text filename (unsafe_mode h) (answers w) = (Break c, u, a, evs1) ->
  cexec h (build_env h filename) c
    (mkExec u (suspendUpdates (wipe (document w))) a) = (st, evs2, Some e) ->
  is_Exception e = false ->
  openFileInWindow h filename w = (w', evs, o) ->
  o = Propagated e /\
  sys_stdout w' = con_stdout h /\ sys_stderr w' = con_stderr h /\
  doc_updates (document w') = doc_updates (exec_doc st).
Proof.
  intros Hr Hl Hx He. unfold openFileInWindow. rewrite Hr, Hl. simpl.
  rewrite Hx, He. by intros [= <- <- <-].
Qed.

(** C6.  When the script runs to its end without raising, the load
    returns with [sys.stdout] and [sys.stderr] restored, change
    notifications enabled, the document unmodified and its undo history
    empty: after the script the document receives [enableUpdates()],
    [setModified(False)] and [clearHistory()], in that order, and no
    other call. *)
Theorem successful_load_postconditions filename w text c u a evs1 st evs2 w' evs o :
  open_read h filename = ReadOk text ->
  compile_loop h text filename (unsafe_mode h) (answers w) = (Break c, u, a, evs1) ->
  cexec h (build_env h filename) c
    (mkExec u (suspendUpdates (wipe (document w))) a) = (st, evs2, None) ->
  openFileInWindow h filename w = (w', evs, o) ->
  o = Returned /\
  sys_stdout w' = sys_stdout w /\ sys_stderr w' = sys_stderr w /\
  doc_updates (document w') = true /\
  doc_modified (document w') = false /\
  doc_history (document w') = [] /\
  document w' = clearHistory (setModified false (enableUpdates (exec_doc st))) /\
  exists tail,
    evs = EvSetOverrideCursor :: evs1
            ++ [EvDoc Wipe; EvDoc SuspendUpdates;
                EvAddImportPath (path_dirname h (abspath h filename))]
            ++ evs2
            ++ [EvDoc EnableUpdates; EvDoc (SetModified false); EvDoc ClearHistory]
            ++ tail /\
    forall op, EvDoc op ∉ tail.
Proof.
  intros Hr Hl Hx. unfold openFileInWindow. rewrite Hr, Hl. simpl. rewrite Hx.
  destruct (dirname_usecwd h); intros [= <- <- <-]; repeat (split; [done|]).
  all: eexists; split;
    [simpl; rewrite <- !app_assoc; reflexivity|intros op Hi; not_elem Hi].
Qed.

(** C7, as amended.  When the script raises an exception that derives
    from [Exception], the load restores [sys.stdout] and [sys.stderr],
    re-enables change notifications, shows the error dialog with the
    message and the backtrace of the exception, and returns; the document
    is the one the script left, with notifications enabled: after the
    script it receives [enableUpdates()] and nothing else. *)
Theorem script_exception_is_reported filename w text c u a evs1 st evs2 e w' evs o :
  open_read h filename = ReadOk text ->
  compile_loop h text filename (unsafe_mode h) (answers w) = (Break c, u, a, evs1) ->
  cexec h (build_env h filename) c
    (mkExec u (suspendUpdates (wipe (document w))) a) = (st, evs2, Some e) ->
  is_Exception e = true ->
  openFileInWindow h filename w = (w', evs, o) ->
  o = Returned /\
  sys_stdout w' = sys_stdout w /\ sys_stderr w' = sys_stderr w /\
  doc_updates (document w') = true /\
  document w' = enableUpdates (exec_doc st) /\
  evs = EvSetOverrideCursor :: evs1
          ++ [EvDoc Wipe; EvDoc SuspendUpdates;
              EvAddImportPath (path_dirname h (abspath h filename))]
          ++ evs2
          ++ [EvDoc EnableUpdates; EvRestoreOverrideCursor;
              EvErrorLoadingDialog filename (exn_str e) (exn_backtrace e)].
Proof.
  intros Hr Hl Hx He. unfold openFileInWindow. rewrite Hr, Hl. simpl.
  rewrite Hx, He. intros [= <- <- <-]. repeat (split; [done|]).
  simpl. by rewrite <- !app_assoc.
Qed.

(** C8.  When reading the file raises an [EnvironmentError], the load
    shows the error, performs the default-document setup and returns; the
    compiler is never run, and the document is what [setupDefaultDoc]
    makes of it. *)
Theorem read_error_short_circuits filename w e w' evs o :
  open_read h filename = ReadRaises e ->
  exn_cls e = EnvironmentError ->
  openFileInWindow h filename w = (w', evs, o) ->
  o = Returned /\
  EvCritical filename (exn_str e) ∈ evs /\
  (forall b, EvCompileChecked b ∉ evs) /\
  EvDoc MakeDefaultDoc ∈ evs /\
  document w' = (setupDefaultDoc h (document w)).1.
Proof.
  intros Hr Hc. unfold openFileInWindow. rewrite Hr, Hc.
  destruct (setupDefaultDoc h (document w)) as [d evs0] eqn:Hs.
  apply setupDefaultDoc_events in Hs as [Hm Hs].
  intros [= <- <- <-]. split; [done|]. split; [|split; [|split; [|done]]].
  - do 2 right. by left.
  - intros b Hi. repeat (apply elem_of_cons in Hi as [Hi|Hi]; [discriminate|]).
    by_class Hs Hi.
  - by do 3 right.
Qed.

(** *** The wrappers of the unsafe commands *)

Lemma wrap_lookup_notin (l : list string) : forall env name,
  name ∉ l ->
  foldl (fun env n => <[n := UnsafeCaller n]> env) env l !! name = env !! name.
Proof.
  induction l as [|x l IH]; intros env name Hn; simpl; [done|].
  rewrite IH by (intros Hi; apply Hn; by right).
  apply lookup_insert_ne. intros ->. apply Hn. by left.
Qed.

Lemma wrap_lookup_in (l : list string) : forall env name,
  name ∈ l ->
  foldl (fun env n => <[n := UnsafeCaller n]> env) env l !! name
    = Some (UnsafeCaller name).
Proof.
  induction l as [|x l IH]; intros env name Hin; simpl.
  - by apply elem_of_nil in Hin.
  - destruct (decide (name ∈ l)) as [Hl|Hl]; [by apply IH|].
    apply elem_of_cons in Hin as [->|Hin]; [|done].
    rewrite wrap_lookup_notin by done. apply lookup_insert_eq.
Qed.

(** C10.  Every name of [unsafe_commands] is bound in the environment to
    the wrapper of the command of that name, and a call of it never
    yields the value of the command: it returns [None] when the call is
    skipped and when the command is run and returns, and it raises only
    what the command raises. *)
Theorem unsafe_wrapper_returns_None filename name :
  name ∈ unsafe_commands h ->
  "__file__" ∉ unsafe_commands h ->
  build_env h filename !! name = Some (UnsafeCaller name) /\
  forall args st st' evs r,
    call h (build_env h filename) name args st = (st', evs, r) ->
    (r = Returns VNone \/
     exists e, r = Raises e /\ (command h name args (exec_doc st)).2 = Raises e) /\
    (forall v, (command h name args (exec_doc st)).2 = Returns v -> r = Returns VNone).
Proof.
  intros Hin Hf.
  assert (Hb : build_env h filename !! name = Some (UnsafeCaller name)).
  { unfold build_env. rewrite lookup_insert_ne by (intros <-; done).
    by apply wrap_lookup_in. }
  split; [done|]. intros args st st' evs r. unfold call. rewrite Hb. intros Hw.
  apply wrapped_cases in Hw as [(_ & _ & _ & _ & ->)|[(_ & rest & _ & _ & _ & ->)|
    (_ & rest & _ & _ & _ & _ & ->)]].
  - destruct (command h name args (exec_doc st)) as [d [v|e]]; simpl;
      split; eauto; done.
  - split; [by left|done].
  - destruct (command h name args (exec_doc st)) as [d [v|e]]; simpl;
      split; eauto; done.
Qed.

(** *** Declining a per-command prompt *)

Lemma invoked_app evs1 evs2 : invoked (evs1 ++ evs2) = invoked evs1 ++ invoked evs2.
Proof.
  induction evs1 as [|e evs1 IH]; [done|]. destruct e; simpl; by rewrite ?IH.
Qed.

Section NoCommandRaises.

Hypothesis command_returns :
  forall name args d, exists d' v, command h name args d = (d', Returns v).

(** A run of safe calls invokes each of them and touches neither the
    trust flag nor the user. *)
Lemma straight_safe_prefix env pre : forall calls st st' evs o,
  Forall (is_safe_call env) pre ->
  cexec h env (straight (pre ++ calls)) st = (st', evs, o) ->
  exists d evs1 evs2,
    cexec h env (straight calls) (mkExec (safenow st) d (exec_answers st))
      = (st', evs2, o) /\
    evs = evs1 ++ evs2 /\
    invoked evs1 = omap (target env) pre /\
    no_cmd_prompt evs1.
Proof.
  induction pre as [|[name args] pre IH]; intros calls st st' evs o Hs; simpl.
  - intros Hx. exists (exec_doc st), [], evs.
    split; [by destruct st|]. split; [done|]. split; [done|constructor].
  - apply Forall_cons in Hs as [[n Hn] Hs]. simpl in Hn.
    unfold call, target. simpl. rewrite Hn. unfold call_command.
    destruct (command_returns n args (exec_doc st)) as (d' & v & ->).
    destruct (cexec h env (straight (pre ++ calls)) _) as [[st2 evs2] o2] eqn:Hx.
    intros [= <- <- <-].
    destruct (IH _ _ _ _ _ Hs Hx) as (d & e1 & e2 & Hx2 & -> & Hi & Hp).
    exists d, (EvCommand n args :: e1), e2. simpl in *.
    split; [done|]. split; [done|]. split; [by rewrite Hi|by constructor].
Qed.

(** When every prompt still to come is accepted, or none can come, every
    call of a run of command calls is invoked. *)
Lemma straight_all_invoked env calls : forall st st' evs o,
  Forall (is_command_call env) calls ->
  safenow st = true \/ (exists rest, exec_answers st = true :: rest)
    \/ Forall (is_safe_call env) calls ->
  cexec h env (straight calls) st = (st', evs, o) ->
  o = None /\ invoked evs = omap (target env) calls.
Proof.
  induction calls as [|[name args] calls IH]; intros st st' evs o Hc Hj; simpl.
  - by intros [= <- <- <-].
  - apply Forall_cons in Hc as [[n Hn] Hc]. simpl in Hn.
    destruct (call h env name args st) as [[st1 evs1] r] eqn:Hcall.
    assert (exists v, r = Returns v /\ invoked evs1 = [(n, args)] /\
            (safenow st1 = true \/ (exists rest, exec_answers st1 = true :: rest)
             \/ Forall (is_safe_call env) calls)) as (v & -> & Hi & Hj1).
    { unfold call in Hcall. destruct Hn as [Hn|Hn]; rewrite Hn in Hcall.
      - unfold call_command in Hcall.
        destruct (command_returns n args (exec_doc st)) as (d' & v & Hcmd).
        rewrite Hcmd in Hcall. injection Hcall as <- <- <-.
        exists v. split; [done|]. split; [done|]. simpl.
        destruct Hj as [Hj|[Hj|Hj]]; [by left|right; by left|].
        right; right. by apply Forall_cons in Hj as [_ Hj].
      - destruct (command_returns n args (exec_doc st)) as (d' & v & Hcmd).
        apply wrapped_cases in Hcall as [(_ & Hs & -> & _ & ->)|[(Hf & rest & Ha & _)|
          (_ & rest & _ & Hs & _ & -> & ->)]].
        + rewrite Hcmd. exists VNone. split; [done|]. split; [done|]. by left.
        + exfalso. destruct Hj as [Hj|[[rest' Hj]|Hj]].
          * congruence.
          * rewrite Hj in Ha. discriminate.
          * apply Forall_cons in Hj as [[m Hm] _]. simpl in Hm. congruence.
        + rewrite Hcmd. exists VNone. split; [done|]. split; [done|]. by left. }
    destruct (cexec h env (straight calls) st1) as [[st2 evs2] o2] eqn:Hx.
    intros [= <- <- <-].
    destruct (IH _ _ _ _ Hc Hj1 Hx) as [-> Hi2].
    split; [done|]. rewrite invoked_app, Hi, Hi2. unfold target at 2. simpl.
    by destruct Hn as [->| ->].
Qed.

(** C5.  In a script that is a sequence of command calls none of which
    raises, let the user decline the prompt of an unsafe call that is
    reached untrusted, and accept any prompt that comes later.  The
    script then runs to its end, the declined prompt is the only thing the
    skipped call causes, and the commands invoked are those of all the
    other calls, before and after, in order.  In a script of any shape,
    such a declined call shows the prompt, invokes nothing, leaves
    document and trust flag as they are and hands [None] to the rest of
    the script, which runs on. *)
Theorem declined_command_is_skipped env pre name args c post st rest st' evs o :
  Forall (is_safe_call env) pre ->
  env !! name = Some (UnsafeCaller c) ->
  Forall (is_command_call env) post ->
  safenow st = false ->
  exec_ (exec_answers st) = (false, rest) ->
  (exists rest', rest = true :: rest') \/ Forall (is_safe_call env) post ->
  cexec h env (straight (pre ++ (name, args) :: post)) st = (st', evs, o) ->
  o = None /\
  invoked evs = omap (target env) pre ++ omap (target env) post /\
  (exists evs1 evs2,
    evs = evs1 ++ [EvRestoreOverrideCursor; EvUnsafeVeuszCmdMsgBox false] ++ evs2 /\
    invoked evs1 = omap (target env) pre /\
    invoked evs2 = omap (target env) post) /\
  forall k d,
    cexec h env (SCall name args k) (mkExec false d (exec_answers st))
    = (let '(st2, evs2, o2) :=
         cexec h env (k (Returns VNone)) (mkExec false d rest) in
       (st2, [EvRestoreOverrideCursor; EvUnsafeVeuszCmdMsgBox false] ++ evs2, o2)).
Proof.
  intros Hpre Hn Hpost Hs Ha Hlater Hx.
  assert (Hany : forall k d,
    cexec h env (SCall name args k) (mkExec false d (exec_answers st))
    = (let '(st2, evs2, o2) :=
         cexec h env (k (Returns VNone)) (mkExec false d rest) in
       (st2, [EvRestoreOverrideCursor; EvUnsafeVeuszCmdMsgBox false] ++ evs2, o2))).
  { intros k d. simpl. unfold call. rewrite Hn. unfold wrapped. simpl.
    by rewrite Ha. }
  apply straight_safe_prefix in Hx as (d & evs1 & evs2 & Hx & -> & Hi1 & _);
    [|done].
  simpl in Hx. unfold call in Hx. rewrite Hn in Hx. unfold wrapped in Hx.
  simpl in Hx. rewrite Hs, Ha in Hx. simpl in Hx.
  destruct (cexec h env (straight post) _) as [[st2 evs3] o2] eqn:Hx3.
  injection Hx as <- <- <-.
  apply straight_all_invoked in Hx3 as [-> Hi3]; [|done|].
  - split; [done|]. split; [|split; [|done]].
    + rewrite invoked_app. simpl. by rewrite Hi1, Hi3.
    + by exists evs1, evs3.
  - simpl. destruct Hlater as [Hl|Hl]; [right; by left|right; by right].
Qed.

End NoCommandRaises.

End LoaderProperties.

(** ** The properties on the sample installation *)

Import Sample.

(** A load of [export.vsz] in which the user declines the prompt for
    [Export] and accepts the one for [Print]: nothing after the accepted
    prompt is a per-command prompt. *)
Lemma unsafe_confirmed_is_sticky_witness :
  no_cmd_prompt
    [EvCommand "Print" []; EvCommand "Save" [VStr "copy.vsz"];
     EvDoc EnableUpdates; EvDoc (SetModified false); EvDoc ClearHistory;
     EvPopulateRecentFiles; EvUpdateTitlebar; EvUpdateStatusbar "export.vsz";
     EvDocumentOpened; EvRestoreOverrideCursor].
Proof.
  destruct (openFileInWindow host "export.vsz" (window [false; true]))
    as [[w' evs] o] eqn:H.
  refine (proj2 (proj2 (unsafe_confirmed_is_sticky host)) _ _ _ _ _
            [EvSetOverrideCursor; EvCompileChecked false; EvDoc Wipe;
             EvDoc SuspendUpdates; EvAddImportPath "/home/user";
             EvCommand "Add" [VStr "page"]; EvRestoreOverrideCursor;
             EvUnsafeVeuszCmdMsgBox false; EvCommand "Set" [VStr "x"; VInt 1];
             EvRestoreOverrideCursor] _ H _).
  vm_compute in H. injection H as <- <- <-. reflexivity.
Defined.

(** A load of [import.vsz] in which the user accepts the whole-file
    prompt. *)
Lemma accepted_violation_trusts_execution_witness :
  no_cmd_prompt (openFileInWindow host "import.vsz" (window [true])).1.2.
Proof.
  destruct (openFileInWindow host "import.vsz" (window [true]))
    as [[w' evs] o] eqn:H.
  refine (proj2 (proj2 (accepted_violation_trusts_execution host _ _ _ _ _ H _))).
  vm_compute in H. injection H as <- <- <-. is_elem.
Defined.

(** A load of [import.vsz] in which the user declines the whole-file
    prompt: the edited document of the window is still there. *)
Lemma decline_leaves_document_untouched_witness :
  document (openFileInWindow host "import.vsz" (window [false])).1.1 = edited.
Proof.
  destruct (openFileInWindow host "import.vsz" (window [false]))
    as [[w' evs] o] eqn:H.
  refine (proj2 (proj2 (proj2
            (decline_leaves_document_untouched host _ _ _ _ _ H _)))).
  vm_compute in H. injection H as <- <- <-. is_elem.
Defined.

Lemma decline_performs_no_setup_witness :
  (openFileInWindow host "import.vsz" (window [false])).2 = Returned.
Proof.
  destruct (openFileInWindow host "import.vsz" (window [false]))
    as [[w' evs] o] eqn:H.
  refine (proj1 (decline_performs_no_setup host _ _ _ _ _ H _)).
  vm_compute in H. injection H as <- <- <-. is_elem.
Defined.

(** C3 as stated fails: loading [import.vsz] into the window that shows
    the edited document, with a user who declines the whole-file prompt,
    performs no default-document setup, and the document is not what the
    setup would have made of it. *)
Lemma decline_resets_document_counterexample :
  ~ (forall h filename w w' evs o,
       openFileInWindow h filename w = (w', evs, o) ->
       EvUnsafeCmdMsgBox false ∈ evs ->
       o = Returned /\
       EvDoc MakeDefaultDoc ∈ evs /\
       document w' = (setupDefaultDoc h (document w)).1).
Proof.
  intros Hclaim.
  destruct (Hclaim host "import.vsz" (window [false]) _ _ _ eq_refl)
    as (_ & Hin & Hdoc).
  - vm_compute. is_elem.
  - vm_compute in Hdoc. discriminate.
Qed.

(** C4.  A load of [exit.vsz]: compiling it raises a security violation,
    the user accepts, and the script, after a first command, raises
    [SystemExit].  The exception leaves [openFileInWindow], and
    [sys.stdout] and [sys.stderr] are still the streams of the console,
    not those from before the load. *)
Theorem exit_leaves_streams_redirected :
  (openFileInWindow host "exit.vsz" (window [true])).2 = Propagated SystemExit /\
  sys_stdout (openFileInWindow host "exit.vsz" (window [true])).1.1 = con_stdout host /\
  sys_stderr (openFileInWindow host "exit.vsz" (window [true])).1.1 = con_stderr host /\
  Nat.eqb (sys_stdout (openFileInWindow host "exit.vsz" (window [true])).1.1)
          (sys_stdout (window [true])) = false /\
  Nat.eqb (sys_stderr (openFileInWindow host "exit.vsz" (window [true])).1.1)
          (sys_stderr (window [true])) = false.
Proof. vm_compute. by repeat split. Qed.

(** A load of [plain.vsz]. *)
Lemma successful_load_postconditions_witness :
  doc_modified (document (openFileInWindow host "plain.vsz" (window [])).1.1) = false /\
  doc_history (document (openFileInWindow host "plain.vsz" (window [])).1.1) = [].
Proof.
  destruct (openFileInWindow host "plain.vsz" (window [])) as [[w' evs] o] eqn:H.
  edestruct (successful_load_postconditions host "plain.vsz" (window []))
    as (_ & _ & _ & _ & Hm & Hh & _); [reflexivity..|exact H|].
  simpl. by split.
Defined.

(** A load of [failing.vsz], whose script divides by zero after a first
    command. *)
Lemma script_exception_is_reported_witness :
  EvErrorLoadingDialog "failing.vsz" "division by zero"
    "ZeroDivisionError: division by zero"
    ∈ (openFileInWindow host "failing.vsz" (window [])).1.2.
Proof.
  destruct (openFileInWindow host "failing.vsz" (window [])) as [[w' evs] o] eqn:H.
  edestruct (script_exception_is_reported host "failing.vsz" (window []))
    as (_ & _ & _ & _ & _ & He); [reflexivity..|exact H|].
  simpl. rewrite He. vm_compute. is_elem.
Defined.

(** C7 as stated fails: in the load of [exit.vsz] the script raises
    [SystemExit], which does not derive from [Exception]; the load does
    not return, shows no error dialog, and change notifications stay
    suspended. *)
Lemma script_exception_is_reported_counterexample :
  ~ (forall h filename w text c u a evs1 st evs2 e w' evs o,
       open_read h filename = ReadOk text ->
       compile_loop h text filename (unsafe_mode h) (answers w) = (Break c, u, a, evs1) ->
       cexec h (build_env h filename) c
         (mkExec u (suspendUpdates (wipe (document w))) a) = (st, evs2, Some e) ->
       openFileInWindow h filename w = (w', evs, o) ->
       o = Returned /\
       doc_updates (document w') = true /\
       EvErrorLoadingDialog filename (exn_str e) (exn_backtrace e) ∈ evs).
Proof.
  intros Hclaim.
  edestruct (Hclaim host "exit.vsz" (window [true])) as (Ho & _);
    [reflexivity..|].
  vm_compute in Ho. discriminate.
Qed.

(** A load of [missing.vsz], which cannot be opened. *)
Lemma read_error_short_circuits_witness :
  (openFileInWindow host "missing.vsz" (window [])).2 = Returned.
Proof.
  destruct (openFileInWindow host "missing.vsz" (window [])) as [[w' evs] o] eqn:H.
  exact (proj1 (read_error_short_circuits host "missing.vsz" (window []) ENOENT
                  _ _ _ eq_refl eq_refl H)).
Defined.

(** [Export] in the environment of a load of [export.vsz]. *)
Lemma unsafe_wrapper_returns_None_witness :
  build_env host "export.vsz" !! "Export" = Some (UnsafeCaller "Export").
Proof.
  refine (proj1 (unsafe_wrapper_returns_None host "export.vsz" "Export" _ _)).
  - is_elem.
  - intros Hin. vm_compute in Hin. not_elem Hin.
Defined.

Lemma sample_command_returns name args d :
  exists d' v, command host name args d = (d', Returns v).
Proof. by eexists _, _. Qed.

(** The script of [export.vsz], started untrusted with a user who
    declines the prompt for [Export] and accepts the next: all commands
    but [Export] are invoked. *)
Lemma declined_command_is_skipped_witness :
  invoked (cexec host (build_env host "export.vsz") export_script
             (mkExec false (suspendUpdates (wipe edited)) [false; true])).1.2
  = [("Add", [VStr "page"]); ("Set", [VStr "x"; VInt 1]); ("Print", []);
     ("Save", [VStr "copy.vsz"])].
Proof.
  destruct (cexec host (build_env host "export.vsz") export_script
              (mkExec false (suspendUpdates (wipe edited)) [false; true]))
    as [[st' evs] o] eqn:H.
  edestruct (declined_command_is_skipped host sample_command_returns
               (build_env host "export.vsz") [("Add", [VStr "page"])]
               "Export" [VStr "out.pdf"] "Export"
               [("Set", [VStr "x"; VInt 1]); ("Print", []); ("Save", [VStr "copy.vsz"])]
               (mkExec false (suspendUpdates (wipe edited)) [false; true]) [true])
    as (_ & Hi & _); [..|exact H|].
  - repeat constructor. by exists "Add".
  - reflexivity.
  - repeat constructor; eexists; (by left) || (by right).
  - reflexivity.
  - reflexivity.
  - left. by eexists.
  - simpl. rewrite Hi. reflexivity.
Defined.

(** ** Further properties of the loader *)

Section LoaderFurther.

Context (h : Host).

Implicit Types (env : gmap string binding) (st : ExecState) (evs : list event).

(** *** Leaving the compile loop *)

Lemma compile_loop_return_restores text filename ans : forall unsafe u a evs,
  compile_loop h text filename unsafe ans = (Return_, u, a, evs) ->
  EvRestoreOverrideCursor ∈ evs.
Proof.
  induction ans as [|b ans IH]; intros unsafe u a evs; simpl;
    destruct (compileChecked h text filename unsafe) as [c|e]; try done.
  - destruct (exn_cls e); intros [= <- <- <-]; is_elem.
  - destruct (exn_cls e); try (intros [= <- <- <-]; is_elem).
    destruct b; [|intros [= <- <- <-]; is_elem].
    destruct (compile_loop h text filename true ans) as [[[x' u'] a'] evs'] eqn:Hl.
    intros [= -> <- <- <-]. do 3 right. by eapply IH.
Qed.

Lemma compile_loop_propagate text filename ans : forall unsafe e u a evs,
  compile_loop h text filename unsafe ans = (Propagate e, u, a, evs) ->
  is_Exception e = false.
Proof.
  induction ans as [|b ans IH]; intros unsafe e u a evs; simpl;
    destruct (compileChecked h text filename unsafe) as [c|e']; try done.
  - unfold is_Exception.
    destruct (exn_cls e') eqn:Hc; intros [= <- <- <- <-]. by rewrite Hc.
  - unfold is_Exception.
    destruct (exn_cls e') eqn:Hc; try (intros [= <- <- <- <-]; by rewrite Hc).
    destruct b; [|done].
    destruct (compile_loop h text filename true ans) as [[[x' u'] a'] evs'] eqn:Hl.
    intros [= -> <- <- <-]. by eapply IH.
Qed.

(** A compiler failure that is not a security violation ends the loop at
    once, whatever the mode and whatever the user would answer. *)
Lemma compile_loop_error text filename unsafe ans e :
  compileChecked h text filename unsafe = CompileRaises e ->
  is_Exception e = true ->
  exn_cls e <> SafeEvalException ->
  compile_loop h text filename unsafe ans
  = (Return_, unsafe, ans, EvCompileChecked unsafe :: errordialog filename e).
Proof.
  intros Hc He Hs. unfold is_Exception in He.
  destruct ans; simpl; rewrite Hc; by destruct (exn_cls e).
Qed.

(** *** Compile errors *)

(** When the compiler fails on the first pass with an exception that
    derives from [Exception] and is not a security violation, the load
    shows the error dialog with the message and the backtrace and
    returns; the window, its document included, is exactly as before: the
    document is neither wiped nor set up as a default document. *)
Theorem compile_error_is_reported filename w text e :
  open_read h filename = ReadOk text ->
  compileChecked h text filename (unsafe_mode h) = CompileRaises e ->
  is_Exception e = true ->
  exn_cls e <> SafeEvalException ->
  openFileInWindow h filename w
  = (w,
     [EvSetOverrideCursor; EvCompileChecked (unsafe_mode h); EvRestoreOverrideCursor;
      EvErrorLoadingDialog filename (exn_str e) (exn_backtrace e)],
     Returned).
Proof.
  intros Hr Hc He Hs. unfold openFileInWindow.
  rewrite Hr, (compile_loop_error _ _ _ _ _ Hc He Hs). by destruct w.
Qed.

(** *** What leaves the loader as an exception *)

(** An exception leaves [openFileInWindow] only when it does not derive
    from [Exception], or when it is raised by reading the file and is not
    an [EnvironmentError]. *)
Theorem propagated_exceptions filename w w' evs e :
  openFileInWindow h filename w = (w', evs, Propagated e) ->
  is_Exception e = false \/
  (open_read h filename = ReadRaises e /\ exn_cls e <> EnvironmentError).
Proof.
  unfold openFileInWindow.
  destruct (open_read h filename) as [text|e'].
  - destruct (compile_loop h text filename (unsafe_mode h) (answers w))
      as [[[x u] a] evs1] eqn:Hl.
    destruct x as [c| |e'']; simpl; [|done|].
    + destruct (cexec h (build_env h filename) c _) as [[st evs2] [e''|]].
      * destruct (is_Exception e'') eqn:He; [done|]. intros [= _ _ <-]. by left.
      * by destruct (dirname_usecwd h).
    + intros [= _ _ <-]. left. by eapply compile_loop_propagate.
  - destruct (exn_cls e') eqn:Hc.
    + by destruct (setupDefaultDoc h (document w)).
    + intros [= _ _ <-]. right. by rewrite Hc.
    + intros [= _ _ <-]. right. by rewrite Hc.
    + intros [= _ _ <-]. right. by rewrite Hc.
Qed.

(** *** The busy cursor *)

(** Whenever [openFileInWindow] returns, the busy cursor it has set has
    been restored at least once. *)
Theorem cursor_restored_when_returned filename w w' evs :
  openFileInWindow h filename w = (w', evs, Returned) ->
  exists l1 l2, evs = EvSetOverrideCursor :: l1 ++ EvRestoreOverrideCursor :: l2.
Proof.
  intros H.
  assert (exists l, evs = EvSetOverrideCursor :: l /\ EvRestoreOverrideCursor ∈ l)
    as (l & -> & Hin).
  { revert H. unfold openFileInWindow.
    destruct (open_read h filename) as [text|e'].
    - destruct (compile_loop h text filename (unsafe_mode h) (answers w))
        as [[[x u] a] evs1] eqn:Hl.
      destruct x as [c| |e'']; simpl; [| |done].
      + destruct (cexec h (build_env h filename) c _) as [[st evs2] [e''|]].
        * destruct (is_Exception e''); [|done]. intros [= _ <-].
          eexists. split; [done|]. rewrite !elem_of_app. right. is_elem.
        * destruct (dirname_usecwd h); intros [= _ <-];
            (eexists; split; [done|]; rewrite !elem_of_app; right; right; right;
             simpl; is_elem).
      + intros [= _ <-]. eexists. split; [done|].
        by eapply compile_loop_return_restores.
    - destruct (exn_cls e'); try done.
      destruct (setupDefaultDoc h (document w)) as [d evs0]. intros [= _ <-].
      eexists. split; [done|]. is_elem. }
  apply list_elem_of_split in Hin as (l1 & l2 & ->). by exists l1, l2.
Qed.

(** *** The window after a load *)


(** *** Loads that show no prompt *)

(** With the global unsafe mode on, a load shows no per-command prompt. *)
Theorem unsafe_mode_shows_no_command_prompt filename w w' evs o :
  unsafe_mode h = true ->
  openFileInWindow h filename w = (w', evs, o) ->
  no_cmd_prompt evs.
Proof.
  intros Hu H.
  apply openFileInWindow_inv in H as
    [(e & d & evs0 & _ & _ & Hs & _ & -> & _)|[(e & _ & _ & _ & -> & _)|
     (text & x & u & a & evs1 & Hr & Hl & H)]].
  - apply setupDefaultDoc_events in Hs as [_ Hs].
    repeat (constructor; [done|]). by apply setup_no_cmd_prompt.
  - by repeat constructor.
  - assert (H1 := loop_no_cmd_prompt _ (compile_loop_events h _ _ _ _ _ _ _ _ Hl)).
    assert (u = true) as -> by (by eapply compile_loop_unsafe).
    destruct H as [(-> & -> & -> & ->)|[(e & -> & -> & -> & ->)|
      (c & st & evs2 & r & tail & -> & Hx & -> & Ht)]].
    + by constructor.
    + by constructor.
    + apply Forall_app. split.
      * constructor; [done|]. apply Forall_app. split; [done|by repeat constructor].
      * apply Forall_app. split; [by eapply cexec_trusted|by apply tail_no_cmd_prompt].
Qed.

(** A script that calls no wrapped command shows no prompt and leaves
    the trust flag and the user alone. *)
Lemma cexec_calls_within env s : forall st st' evs o,
  calls_within (not_wrapped env) s ->
  cexec h env s st = (st', evs, o) ->
  no_cmd_prompt evs /\ safenow st' = safenow st /\
  exec_answers st' = exec_answers st.
Proof.
  induction s as [|e|name args k IH]; intros st st' evs o Hw; simpl.
  - intros [= <- <- <-]. by repeat split; [constructor|..].
  - intros [= <- <- <-]. by repeat split; [constructor|..].
  - inversion Hw as [| |? ? ? Hok Hk]; subst.
    destruct (call h env name args st) as [[st1 evs1] r] eqn:Hc.
    destruct (cexec h env (k r) st1) as [[st2 evs2] o2] eqn:Hx.
    intros [= <- <- <-].
    destruct (IH _ _ _ _ _ (Hk r) Hx) as (Hn2 & Hs2 & Ha2).
    apply call_cases in Hc as [(c & _ & Hc)|[(c & Hb & _)|(-> & -> & _)]].
    + apply call_command_events in Hc as (-> & Hs1 & Ha1).
      split; [|split; congruence]. apply Forall_app. split; [by repeat constructor|done].
    + by apply Hok in Hb.
    + done.
Qed.

(** When the file compiles on the first pass and its script calls no
    name that is bound to the wrapper of an unsafe command, the load shows
    no security prompt of either kind and asks the user nothing. *)
Theorem safe_script_shows_no_prompt filename w text c w' evs o :
  open_read h filename = ReadOk text ->
  compileChecked h text filename (unsafe_mode h) = Compiled c ->
  calls_within (not_wrapped (build_env h filename)) c ->
  openFileInWindow h filename w = (w', evs, o) ->
  Forall (fun e => is_prompt e = false) evs /\ answers w' = answers w.
Proof.
  intros Hr Hc Hw. unfold openFileInWindow. rewrite Hr.
  assert (Hl : compile_loop h text filename (unsafe_mode h) (answers w)
               = (Break c, unsafe_mode h, answers w, [EvCompileChecked (unsafe_mode h)])).
  { destruct (answers w); simpl; by rewrite Hc. }
  rewrite Hl. simpl.
  destruct (cexec h (build_env h filename) c _) as [[st evs2] r] eqn:Hx.
  destruct (cexec_calls_within _ _ _ _ _ _ Hw Hx) as (Hn & _ & Ha). simpl in Ha.
  assert (H2 : Forall (fun e => is_prompt e = false) evs2).
  { assert (He := cexec_events h _ _ _ _ _ _ Hx).
    unfold no_cmd_prompt in Hn. rewrite Forall_forall in Hn, He. apply Forall_forall.
    intros e Hi. specialize (Hn e Hi). specialize (He e Hi). by destruct e. }
  destruct r as [e|]; [destruct (is_Exception e)|destruct (dirname_usecwd h)];
    intros [= <- <- <-]; (split; [|done]).
  all: repeat (constructor; [done|]).
  all: rewrite ?Forall_app; repeat split; try done; by repeat constructor.
Qed.

(** *** The execution environment *)

Lemma foldl_insert_lookup (F : string -> binding) (l : list string) :
  forall env name,
  foldl (fun env n => <[n := F n]> env) env l !! name
  = if decide (name ∈ l) then Some (F name) else env !! name.
Proof.
  induction l as [|x l IH]; intros env name.
  - destruct (decide (name ∈ [])) as [Hin|_]; [by apply elem_of_nil in Hin|done].
  - simpl. rewrite IH. destruct (decide (name ∈ l)) as [Hl|Hl].
    + rewrite decide_True; [done|by right].
    + destruct (decide (name = x)) as [->|Hx].
      * rewrite decide_True by (by left). apply lookup_insert_eq.
      * rewrite decide_False by (intros [?|?]%elem_of_cons; done).
        by apply lookup_insert_ne.
Qed.

(** What a name is bound to when the script starts, by precedence:
    [__file__] is the absolute path of the file, then the unsafe commands
    are wrapped, then [Root], then the safe commands are bound as they
    are, and every other name has its entry of [eval_context], if any. *)
Theorem build_env_lookup filename name :
  build_env h filename !! name
  = if decide (name = "__file__") then Some (Plain (VStr (abspath h filename)))
    else if decide (name ∈ unsafe_commands h) then Some (UnsafeCaller name)
    else if decide (name = "Root") then Some RootNode
    else if decide (name ∈ safe_commands h) then Some (Command name)
    else eval_context h !! name.
Proof.
  unfold build_env.
  destruct (decide (name = "__file__")) as [->|Hf]; [apply lookup_insert_eq|].
  rewrite lookup_insert_ne by done.
  rewrite (foldl_insert_lookup UnsafeCaller).
  destruct (decide (name ∈ unsafe_commands h)); [done|].
  destruct (decide (name = "Root")) as [->|Hr]; [apply lookup_insert_eq|].
  rewrite lookup_insert_ne by done.
  by rewrite (foldl_insert_lookup Command).
Qed.

(** *** The list of recent files *)

Lemma del_first_sublist x (l : list string) : del_first x l `sublist_of` l.
Proof.
  induction l as [|y l IH]; simpl; [done|].
  case_decide; [by apply sublist_cons|by apply sublist_skip].
Qed.

Lemma filter_ne_absent (x : string) (l : list string) : x ∉ l -> filter (fun y => y <> x) l = l.
Proof.
  induction l as [|y l IH]; [done|]. intros Hn.
  rewrite filter_cons_True by (intros ->; apply Hn; by left).
  rewrite IH; [done|]. intros Hi. apply Hn. by right.
Qed.

Lemma del_first_NoDup x (l : list string) : NoDup l -> del_first x l = filter (fun y => y <> x) l.
Proof.
  induction l as [|y l IH]; simpl; [done|]. intros [Hy Hl]%NoDup_cons.
  case_decide as Hxy.
  - subst y. rewrite filter_cons_False by (intros Hn; by apply Hn).
    symmetry. by apply filter_ne_absent.
  - rewrite filter_cons_True by (intros ->; done). by rewrite IH.
Qed.

Lemma del_first_absent x (l : list string) : x ∉ l -> del_first x l = l.
Proof.
  induction l as [|y l IH]; simpl; [done|]. intros Hn.
  rewrite decide_False by (intros ->; apply Hn; by left).
  rewrite IH; [done|]. intros Hi. apply Hn. by right.
Qed.

(** [addRecentFile] puts the absolute path of the file at the head of
    the list of recent files, keeps at most ten entries, adds no other
    entry, and changes nothing else in the window. *)
Theorem addRecentFile_list filename w w' evs :
  addRecentFile h filename w = (w', evs) ->
  head (main_recentfiles w') = Some (abspath h filename) /\
  length (main_recentfiles w') <= 10 /\
  (forall x, x ∈ main_recentfiles w' ->
     x = abspath h filename \/ x ∈ main_recentfiles w) /\
  w' = set_recentfiles (main_recentfiles w') w.
Proof.
  unfold addRecentFile. intros [= <- <-].
  unfold set_recentfiles at 1 2 3 4. cbn [main_recentfiles].
  split; [done|]. split; [|split; [|done]].
  - simpl. rewrite length_take. lia.
  - intros x Hx.
    apply elem_of_cons in Hx as [->|Hx]; [by left|right].
    apply (subseteq_take 9) in Hx.
    case_decide; [|done]. eapply elem_of_sublist; [done|apply del_first_sublist].
Qed.

(** On a list without repetitions [addRecentFile] moves a file that is
    already listed to the front instead of listing it twice: the new list
    is the file followed by the other entries in their old order, cut
    after ten, and it has no repetitions. *)
Theorem addRecentFile_NoDup filename w w' evs :
  NoDup (main_recentfiles w) ->
  addRecentFile h filename w = (w', evs) ->
  main_recentfiles w'
  = take 10 (abspath h filename
               :: filter (fun y => y <> abspath h filename) (main_recentfiles w)) /\
  NoDup (main_recentfiles w').
Proof.
  intros Hnd. unfold addRecentFile. intros [= <- <-].
  unfold set_recentfiles. cbn [main_recentfiles].
  assert (Heq : (if decide (abspath h filename ∈ main_recentfiles w)
                 then del_first (abspath h filename) (main_recentfiles w)
                 else main_recentfiles w)
                = filter (fun y => y <> abspath h filename) (main_recentfiles w)).
  { case_decide as Hin; [by apply del_first_NoDup|].
    symmetry. by apply filter_ne_absent. }
  rewrite Heq. split; [done|].
  apply (sublist_NoDup _
           (abspath h filename
              :: filter (fun y => y <> abspath h filename) (main_recentfiles w)));
    [|apply sublist_skip, sublist_take].
  apply NoDup_cons. split.
  - intros Hi. apply list_elem_of_filter in Hi as [Hi _]. by apply Hi.
  - by apply NoDup_filter.
Qed.

End LoaderFurther.

(** ** Dropped files *)

Section Drop.

Context (splitext : string -> string * string).

(** A drag is accepted exactly when dropping the same event starts at
    least one load. *)
Theorem drag_accepted_iff_drop_opens isBlank event :
  dragEnterEvent splitext event = true <-> dropEvent splitext isBlank event <> [].
Proof.
  unfold dragEnterEvent, dropEvent.
  destruct (provides_uri_list event); simpl; [|split; [discriminate|done]].
  rewrite bool_decide_eq_true.
  by destruct (_getVeuszDropFiles splitext event) as [|f rest]; split.
Qed.

Lemma opened_file_CreateWindow l : map opened_file (map CreateWindow l) = l.
Proof. induction l as [|x l IH]; [done|]. simpl. by rewrite IH. Qed.

(** The files a drop loads are the dropped paths with the extension
    [.vsz], each once and in their order; no other path is loaded. *)
Theorem dropEvent_opens_vsz_files isBlank event :
  provides_uri_list event = true ->
  hasUrls event = true ->
  map opened_file (dropEvent splitext isBlank event)
  = filter (fun u => (splitext u).2 = ".vsz") (url_paths event).
Proof.
  intros Hp Hu. unfold dropEvent, _getVeuszDropFiles. rewrite Hp, Hu. simpl.
  destruct (filter _ (url_paths event)) as [|f rest]; [done|].
  simpl. rewrite opened_file_CreateWindow. by destruct isBlank.
Qed.

(** Only the first file of a drop can be loaded into the window itself,
    and only when its document is blank: every other load, and every load
    at all when the document is not blank, is given a new window. *)
Theorem dropEvent_spares_document isBlank event i filename :
  dropEvent splitext isBlank event !! i = Some (OpenFileInWindow filename) ->
  i = 0 /\ isBlank = true.
Proof.
  unfold dropEvent. destruct (provides_uri_list event); [|done].
  destruct (_getVeuszDropFiles splitext event) as [|f rest]; [done|].
  destruct i as [|i]; simpl.
  - by destruct isBlank.
  - rewrite list_lookup_fmap. by destruct (rest !! i).
Qed.

End Drop.

(** ** The list of dialogs *)

(** A dialog that is shown and then deleted leaves the list of dialogs
    as it was, and deleting a dialog that is not listed changes
    nothing. *)
Theorem showDialog_deleteDialog dialog (dialogs : list nat) :
  dialog ∉ dialogs ->
  deleteDialog dialog (showDialog dialog dialogs) = dialogs /\
  deleteDialog dialog dialogs = dialogs.
Proof.
  unfold showDialog. induction dialogs as [|d l IH]; intros Hn; simpl.
  - by rewrite decide_True.
  - rewrite !decide_False by (intros ->; apply Hn; by left).
    assert (Hl : dialog ∉ l) by (intros Hi; apply Hn; by right).
    destruct (IH Hl) as [H1 H2]. by rewrite H1, H2.
Qed.

(** Deleting a dialog that is listed removes one entry, the first one
    for that dialog, and keeps the others in order. *)
Theorem deleteDialog_listed dialog (dialogs : list nat) :
  dialog ∈ dialogs ->
  exists l1 l2, dialogs = l1 ++ dialog :: l2 /\ (dialog ∉ l1) /\
                deleteDialog dialog dialogs = l1 ++ l2.
Proof.
  induction dialogs as [|d l IH]; intros Hin; [by apply elem_of_nil in Hin|].
  simpl. destruct (decide (dialog = d)) as [->|Hd].
  - exists [], l. split; [done|]. split; [apply not_elem_of_nil|done].
  - apply elem_of_cons in Hin as [?|Hin]; [done|].
    destruct (IH Hin) as (l1 & l2 & -> & Hn & ->).
    exists (d :: l1), l2. split; [done|]. split; [|done].
    intros [?|?]%elem_of_cons; done.
Qed.

(** ** Saving and closing *)

Section Save.

Context (dt : Desktop).

Implicit Types (w : World) (dlgs : list file_dialog) (evs : list ui_event).

(** A window that has a file name is saved without a further call. *)
Lemma slotFileSave_named fuel w dlgs :
  win_filename w <> "" ->
  slotFileSave (S fuel) dt w dlgs = slotFileSave 1 dt w dlgs /\
  is_Some (slotFileSave 1 dt w dlgs).
Proof.
  intros Hn. simpl. destruct (decide (win_filename w = "")); [done|].
  split; [done|].
  destruct (write_document dt (win_filename w) (document w)) as [d|e]; [by eexists|].
  destruct (exn_cls e); by eexists.
Qed.

Lemma slotFileSaveAs_enough fuel w dlgs :
  slotFileSaveAs (S (S fuel)) dt w dlgs = slotFileSaveAs 2 dt w dlgs /\
  is_Some (slotFileSaveAs 2 dt w dlgs).
Proof.
  cbn [slotFileSaveAs].
  destruct (_fileSaveDialog dt "vsz" w dlgs) as [[[[f|] w1] dlgs1] evs1];
    [|split; [done|by eexists]].
  destruct (decide (f = "")) as [->|Hf]; [split; [done|by eexists]|].
  destruct (slotFileSave_named fuel (set_filename f w1) dlgs1 Hf) as [-> [r Hr]].
  rewrite Hr. split; [done|]. destruct r as [[[w2 dlgs2] evs2] o]. by eexists.
Qed.

(** Saving ends: [slotFileSave] and [slotFileSaveAs] call each other at
    most three levels deep, whatever the window, the user and the file
    system. *)
Theorem save_terminates fuel w dlgs :
  3 <= fuel ->
  slotFileSave fuel dt w dlgs = slotFileSave 3 dt w dlgs /\
  is_Some (slotFileSave 3 dt w dlgs).
Proof.
  intros Hf. destruct fuel as [|[|[|fuel]]]; try lia.
  destruct (decide (win_filename w = "")) as [He|Hn].
  - cbn [slotFileSave]. destruct (decide (win_filename w = "")); [|done].
    destruct (slotFileSaveAs_enough fuel w dlgs) as [-> Hs]. done.
  - destruct (slotFileSave_named (S (S fuel)) w dlgs Hn) as [-> Hs].
    by destruct (slotFileSave_named 2 w dlgs Hn) as [-> _].
Qed.

(** What saving can cause, and to which file it writes: only to the file
    the window is named after when saving ends, never to the empty name,
    and with at most one file dialog. *)
Lemma save_writes_fuel fuel :
  (forall w dlgs w' dlgs' evs o,
     slotFileSave fuel dt w dlgs = Some (w', dlgs', evs, o) ->
     Forall (fun e => is_save_event e = true) evs /\
     (forall f, UiWrite f ∈ evs -> f = win_filename w' /\ f <> "") /\
     length (filter (fun e => is_write e = true) evs) <= 1) /\
  (forall w dlgs w' dlgs' evs o,
     slotFileSaveAs fuel dt w dlgs = Some (w', dlgs', evs, o) ->
     Forall (fun e => is_save_event e = true) evs /\
     (forall f, UiWrite f ∈ evs -> f = win_filename w' /\ f <> "") /\
     length (filter (fun e => is_write e = true) evs) <= 1).
Proof.
  induction fuel as [|fuel [IH1 IH2]]; [done|]. split.
  - intros w dlgs w' dlgs' evs o. cbn [slotFileSave].
    destruct (decide (win_filename w = "")) as [He|Hn]; [apply IH2|].
    destruct (write_document dt (win_filename w) (document w)) as [d|e].
    + intros [= <- <- <- <-]. split; [by repeat constructor|]. split; [|simpl; lia].
      intros f Hi. repeat (apply elem_of_cons in Hi as [Hi|Hi]; try discriminate).
      * by injection Hi as ->.
      * by apply elem_of_nil in Hi.
    + destruct (exn_cls e); intros [= <- <- <- <-];
        (split; [by repeat constructor|]); (split; [|simpl; lia]);
        intros f Hi; repeat (apply elem_of_cons in Hi as [Hi|Hi]; try discriminate);
        try (by injection Hi as ->); by apply elem_of_nil in Hi.
  - intros w dlgs w' dlgs' evs o. cbn [slotFileSaveAs]. unfold _fileSaveDialog.
    destruct (next_dialog dlgs) as [[dir sel|] rest].
    + set (f := if decide ((splitext dt sel).2 = "") then _ else _).
      destruct (decide (f = "")).
      * intros [= <- <- <- <-]. split; [by repeat constructor|]. split; [|simpl; lia].
        intros f' Hi. apply elem_of_cons in Hi as [Hi|Hi]; [discriminate|].
        by apply elem_of_nil in Hi.
      * destruct (slotFileSave fuel dt _ rest) as [[[[w2 dlgs2] evs2] o2]|] eqn:Hs;
          [|done].
        intros [= <- <- <- <-].
        destruct (IH1 _ _ _ _ _ _ Hs) as (Hc & Hw & Hl).
        split; [by repeat constructor|].
        split; [|by rewrite !filter_cons_False by done].
        intros f' Hi. repeat (apply elem_of_cons in Hi as [Hi|Hi]; try discriminate).
        by apply Hw.
    + intros [= <- <- <- <-]. split; [by repeat constructor|]. split; [|simpl; lia].
      intros f' Hi. apply elem_of_cons in Hi as [Hi|Hi]; [discriminate|].
      by apply elem_of_nil in Hi.
Qed.

(** Whatever [slotFileSave] writes, it writes once, and to the file the
    window is named after when it ends; it never writes to the empty
    name. *)
Theorem save_writes_under_window_name fuel w dlgs w' dlgs' evs o :
  slotFileSave fuel dt w dlgs = Some (w', dlgs', evs, o) ->
  (forall f, UiWrite f ∈ evs -> f = win_filename w' /\ f <> "") /\
  length (filter (fun e => is_write e = true) evs) <= 1.
Proof.
  intros H. by destruct (proj1 (save_writes_fuel fuel) _ _ _ _ _ _ H) as (_ & ? & ?).
Qed.

(** When a window without a file name is saved and the user closes the
    file dialog, nothing is written and the window is unchanged. *)
Theorem save_unnamed_rejected fuel w dlgs rest :
  2 <= fuel ->
  win_filename w = "" ->
  next_dialog dlgs = (Rejected, rest) ->
  slotFileSave fuel dt w dlgs = Some (w, rest, [UiFileSaveDialog Rejected], Returned).
Proof.
  intros Hf Hn Hd. destruct fuel as [|[|fuel]]; try lia.
  cbn [slotFileSave slotFileSaveAs]. unfold _fileSaveDialog.
  destruct (decide (win_filename w = "")); [|done]. by rewrite Hd.
Qed.

(** Save As names the window before it writes: when the write then
    fails with an [EnvironmentError], the error is shown, nothing has
    been saved, and the window keeps the new name and directory. *)
Theorem save_as_renames_before_writing fuel w dlgs rest dir sel f e :
  3 <= fuel ->
  win_filename w = "" ->
  next_dialog dlgs = (Accepted dir sel, rest) ->
  f = (if decide ((splitext dt sel).2 = "") then sel +:+ ".vsz" else sel) ->
  f <> "" ->
  write_document dt f (document w) = SaveRaises e ->
  exn_cls e = EnvironmentError ->
  slotFileSave fuel dt w dlgs
  = Some (set_filename f (set_dirname dir w), rest,
          [UiFileSaveDialog (Accepted dir sel); UiUpdateTitlebar;
           UiSetOverrideCursor; UiWrite f; UiRestoreOverrideCursor;
           UiCritical f (exn_str e)],
          Returned).
Proof.
  intros Hf Hn Hd Hdef Hne Hw He. destruct fuel as [|[|[|fuel]]]; try lia.
  cbn [slotFileSave slotFileSaveAs]. unfold _fileSaveDialog.
  destruct (decide (win_filename w = "")); [|done]. rewrite Hd.
  change ("." +:+ "vsz") with ".vsz". rewrite <- Hdef.
  destruct (decide (f = "")); [done|].
  unfold set_filename at 1 2 3 4 5 6 7 8. cbn [win_filename document].
  destruct (decide (f = "")); [done|].
  unfold set_dirname at 1. cbn [document]. by rewrite Hw, He.
Qed.

(** *** Closing the window *)

Lemma slotFileSave_events fuel w dlgs w' dlgs' evs o :
  slotFileSave fuel dt w dlgs = Some (w', dlgs', evs, o) ->
  Forall (fun e => is_save_event e = true) evs.
Proof.
  intros H. by destruct (proj1 (save_writes_fuel fuel) _ _ _ _ _ _ H) as (? & _).
Qed.

(** The close is refused exactly when the document is modified and the
    user answers Cancel; nothing is written then, no setting is stored
    and the window is unchanged. *)
Theorem close_ignored_iff_cancelled fuel answer w dlgs w' dlgs' evs o :
  closeEvent fuel dt answer w dlgs = Some (w', dlgs', evs, o) ->
  (UiIgnore ∈ evs <-> doc_modified (document w) = true /\ answer = Cancel) /\
  (UiIgnore ∈ evs ->
     w' = w /\ dlgs' = dlgs /\ evs = [UiQueryOverwrite Cancel; UiIgnore]).
Proof.
  unfold closeEvent. destruct (doc_modified (document w)).
  - destruct answer.
    + destruct (slotFileSave fuel dt w dlgs) as [[[[w1 dlgs1] evs1] [|e]]|] eqn:Hs;
        [| |done]; intros [= <- <- <- <-];
        assert (H1 := slotFileSave_events _ _ _ _ _ _ _ Hs);
        assert (Hn : UiIgnore ∉ evs1) by (intros Hi; by_class H1 Hi).
      * split; [split; [|by intros [_ ?]]|]; intros Hi;
          (apply elem_of_cons in Hi as [Hi|Hi]; [discriminate|]);
          (apply elem_of_app in Hi as [Hi|Hi]; [done|not_elem Hi]).
      * split; [split; [|by intros [_ ?]]|]; intros Hi;
          (apply elem_of_cons in Hi as [Hi|Hi]; [discriminate|]); done.
    + intros [= <- <- <- <-]. split; [split; [|by intros [_ ?]]|];
        intros Hi; not_elem Hi.
    + intros [= <- <- <- <-]. split; [split; [done|intros _; is_elem]|done].
  - intros [= <- <- <- <-]. split; [split; [|by intros [? _]]|];
      intros Hi; not_elem Hi.
Qed.

(** The document is written only when it is modified and the user
    answers Yes; an unmodified document is closed without a question. *)
Theorem close_writes_only_on_yes fuel answer w dlgs w' dlgs' evs o :
  closeEvent fuel dt answer w dlgs = Some (w', dlgs', evs, o) ->
  (forall f, UiWrite f ∈ evs -> doc_modified (document w) = true /\ answer = Yes) /\
  (forall a, UiQueryOverwrite a ∈ evs -> doc_modified (document w) = true /\ a = answer).
Proof.
  unfold closeEvent. destruct (doc_modified (document w)).
  - destruct answer.
    + destruct (slotFileSave fuel dt w dlgs) as [[[[w1 dlgs1] evs1] [|e]]|] eqn:Hs;
        [| |done]; intros [= <- <- <- <-];
        assert (H1 := slotFileSave_events _ _ _ _ _ _ _ Hs);
        (split; [done|]); intros a Hi;
        (apply elem_of_cons in Hi as [Hi|Hi]; [by injection Hi as ->|]).
      * apply elem_of_app in Hi as [Hi|Hi]; [by_class H1 Hi|not_elem Hi].
      * by_class H1 Hi.
    + intros [= <- <- <- <-]. split; [intros f Hi; not_elem Hi|].
      intros a Hi. apply elem_of_cons in Hi as [Hi|Hi]; [by injection Hi as ->|].
      not_elem Hi.
    + intros [= <- <- <- <-]. split; [intros f Hi; not_elem Hi|].
      intros a Hi. apply elem_of_cons in Hi as [Hi|Hi]; [by injection Hi as ->|].
      not_elem Hi.
  - intros [= <- <- <- <-]. split; intros a Hi; not_elem Hi.
Qed.

(** A modified document without a file name, a user who answers Yes to
    the question and then closes the file dialog: the window stores its
    settings and accepts the close, and nothing has been written. *)
Theorem close_accepts_without_saving fuel w dlgs rest :
  2 <= fuel ->
  doc_modified (document w) = true ->
  win_filename w = "" ->
  next_dialog dlgs = (Rejected, rest) ->
  closeEvent fuel dt Yes w dlgs
  = Some (w, rest,
          [UiQueryOverwrite Yes; UiFileSaveDialog Rejected;
           UiWriteSettings (win_dirname w) (win_dirname_export w); UiAccept],
          Returned).
Proof.
  intros Hf Hm Hn Hd. unfold closeEvent.
  by rewrite Hm, (save_unnamed_rejected _ _ _ _ Hf Hn Hd).
Qed.

End Save.

(** ** The tables of the export formats *)

Lemma foldl_insert_const (v : string) (l : list string) :
  forall (m : gmap string string) e,
  foldl (fun m e => <[e := v]> m) m l !! e
  = if decide (e ∈ l) then Some v else m !! e.
Proof.
  induction l as [|x l IH]; intros m e.
  - destruct (decide (e ∈ [])) as [Hin|_]; [by apply elem_of_nil in Hin|done].
  - simpl. rewrite IH. destruct (decide (e ∈ l)) as [Hl|Hl].
    + rewrite decide_True; [done|by right].
    + destruct (decide (e = x)) as [->|Hx].
      * rewrite decide_True by (by left). apply lookup_insert_eq.
      * rewrite decide_False by (intros [?|?]%elem_of_cons; done).
        by apply lookup_insert_ne.
Qed.

Lemma export_tables_snoc (formats : list format) f :
  export_tables (formats ++ [f]) = add_format (export_tables formats) f.
Proof. unfold export_tables. by rewrite foldl_app. Qed.

Lemma export_tables_inv (formats : list format) :
  filters (export_tables formats) = map filterstr formats /\
  (forall e, e ∈ validextns (export_tables formats)
     <-> exists f, f ∈ formats /\ e ∈ f.1) /\
  (forall fs extns, filtertoext (export_tables formats) !! fs = Some extns ->
     exists name, (extns, name) ∈ formats /\ filterstr (extns, name) = fs) /\
  (forall fs, fs ∈ filters (export_tables formats) ->
     is_Some (filtertoext (export_tables formats) !! fs)) /\
  (forall e fs, exttofilter (export_tables formats) !! e = Some fs ->
     e ∈ validextns (export_tables formats) /\
     fs ∈ filters (export_tables formats)) /\
  (forall e, e ∈ validextns (export_tables formats) ->
     is_Some (exttofilter (export_tables formats) !! e)).
Proof.
  induction formats as [|f formats IH] using rev_ind.
  - unfold export_tables. simpl. split; [done|].
    split; [|split; [|split; [|split]]].
    + intros e. split; [intros Hi; by apply elem_of_nil in Hi|].
      intros (f & Hf & _). by apply elem_of_nil in Hf.
    + intros fs extns Hl. by rewrite lookup_empty in Hl.
    + intros fs Hi. by apply elem_of_nil in Hi.
    + intros e fs Hl. by rewrite lookup_empty in Hl.
    + intros e Hi. by apply elem_of_nil in Hi.
  - destruct IH as (Hfil & Hval & Hfe & Hdom & Hef & Hvd).
    rewrite export_tables_snoc. unfold add_format. cbn [filters validextns filtertoext exttofilter].
    split; [by rewrite Hfil, map_app|].
    split; [|split; [|split; [|split]]].
    + intros e. rewrite elem_of_app, Hval. split.
      * intros [(g & Hg & He)|He].
        -- exists g. split; [|done]. apply elem_of_app. by left.
        -- exists f. split; [|done]. apply elem_of_app. right. by left.
      * intros (g & Hg & He). apply elem_of_app in Hg as [Hg|Hg].
        -- left. by exists g.
        -- apply list_elem_of_singleton in Hg as ->. by right.
    + intros fs extns. destruct (decide (filterstr f = fs)) as [<-|Hne].
      * rewrite lookup_insert_eq. intros [= <-]. exists f.2.
        split; [|by destruct f]. apply elem_of_app. right. destruct f. by left.
      * rewrite lookup_insert_ne by done. intros Hl.
        destruct (Hfe _ _ Hl) as (name & Hin & Hs). exists name.
        split; [|done]. apply elem_of_app. by left.
    + intros fs Hi. destruct (decide (filterstr f = fs)) as [<-|Hne].
      * rewrite lookup_insert_eq. by eexists.
      * rewrite lookup_insert_ne by done. apply Hdom.
        apply elem_of_app in Hi as [Hi|Hi]; [done|].
        by apply list_elem_of_singleton in Hi.
    + intros e fs. rewrite foldl_insert_const, !elem_of_app.
      destruct (decide (e ∈ f.1)) as [He|He].
      * intros [= <-]. split; [by right|]. right. by left.
      * intros Hl. destruct (Hef _ _ Hl) as [? ?]. split; by left.
    + intros e He. rewrite foldl_insert_const.
      destruct (decide (e ∈ f.1)); [by eexists|].
      apply Hvd. by apply elem_of_app in He as [He|He].
Qed.

(** The filters offered in the export dialog are the filter strings of
    the formats, in order.  Every offered filter has an entry in
    [filtertoext], and every entry of [filtertoext] is the list of
    extensions of a format with that filter string.  [exttofilter] has an
    entry exactly for the extensions of the formats, and every entry is
    an offered filter. *)
Theorem export_tables_consistent (formats : list format) :
  filters (export_tables formats) = map filterstr formats /\
  (forall fs, fs ∈ filters (export_tables formats) ->
     exists extns name,
       filtertoext (export_tables formats) !! fs = Some extns /\
       (extns, name) ∈ formats /\ filterstr (extns, name) = fs) /\
  (forall e, is_Some (exttofilter (export_tables formats) !! e)
     <-> exists f, f ∈ formats /\ e ∈ f.1) /\
  (forall e fs, exttofilter (export_tables formats) !! e = Some fs ->
     fs ∈ filters (export_tables formats)).
Proof.
  destruct (export_tables_inv formats) as (Hfil & Hval & Hfe & Hdom & Hef & Hvd).
  split; [done|]. split; [|split].
  - intros fs Hi. destruct (Hdom _ Hi) as [extns Hl].
    destruct (Hfe _ _ Hl) as (name & ? & ?). by exists extns, name.
  - intros e. rewrite <- Hval. split; [|apply Hvd].
    intros [fs Hl]. by destruct (Hef _ _ Hl).
  - intros e fs Hl. by destruct (Hef _ _ Hl).
Qed.

Lemma chosen_extensions_valid (formats : list format) filterused chosenextns :
  filtertoext (export_tables formats) !! filterused = Some chosenextns ->
  forall e, e ∈ chosenextns -> e ∈ validextns (export_tables formats).
Proof.
  intros Hl e He.
  destruct (export_tables_inv formats) as (_ & Hval & Hfe & _).
  destruct (Hfe _ _ Hl) as (name & Hin & _).
  apply Hval. by exists (chosenextns, name).
Qed.

(** The extensions of the chosen format are valid extensions, so the
    test on the chosen extensions in [slotFileExport] never decides: the
    exported file gets the first extension of the chosen format appended
    exactly when its own extension is that of no format. *)
Theorem export_filename_test splitext (formats : list format) filterused filename
    chosenextns :
  filtertoext (export_tables formats) !! filterused = Some chosenextns ->
  (forall e, e ∈ chosenextns -> e ∈ validextns (export_tables formats)) /\
  export_filename splitext formats filterused filename
  = if decide (behead (splitext filename).2 ∈ validextns (export_tables formats))
    then inl filename
    else match chosenextns with
         | [] => inr IndexError
         | e :: _ => inl (filename +:+ "." +:+ e)
         end.
Proof.
  intros Hl. assert (Hsub := chosen_extensions_valid _ _ _ Hl).
  split; [done|]. unfold export_filename. rewrite Hl.
  destruct (decide (behead (splitext filename).2 ∈ validextns (export_tables formats)))
    as [Hv|Hv].
  - rewrite decide_False; [done|]. by intros [? _].
  - rewrite decide_True; [done|]. split; [done|]. intros Hc. by apply Hv, Hsub.
Qed.

(** For a filter that the dialog offers, naming the exported file never
    fails with a [KeyError]; it fails, with an [IndexError], only for a
    format without extensions. *)
Theorem export_filename_offered splitext (formats : list format) filterused filename :
  filterused ∈ filters (export_tables formats) ->
  export_filename splitext formats filterused filename <> inr KeyError /\
  export_filename splitext formats filterused filename <> inr ValueError /\
  (export_filename splitext formats filterused filename = inr IndexError ->
   filtertoext (export_tables formats) !! filterused = Some []).
Proof.
  intros Hi.
  destruct (export_tables_inv formats) as (_ & _ & _ & Hdom & _).
  destruct (Hdom _ Hi) as [extns Hl].
  unfold export_filename. rewrite Hl.
  case_decide; [by destruct extns|done].
Qed.

Lemma index_Some x (l : list string) i : index x l = Some i -> l !! i = Some x.
Proof.
  revert i. induction l as [|y l IH]; intros i; simpl; [done|].
  case_decide as Hxy; [by intros [= <-]; subst|].
  destruct (index x l) as [j|]; [|done]. intros [= <-]. by apply IH.
Qed.

Lemma index_None x (l : list string) : index x l = None -> x ∉ l.
Proof.
  induction l as [|y l IH]; simpl; [intros _; apply not_elem_of_nil|].
  case_decide as Hxy; [done|]. destruct (index x l); [done|].
  intros _ [?|?]%elem_of_cons; [done|]. by apply IH.
Qed.

(** Restoring the last export format.  When it yields an extension,
    that extension belongs to one of the formats and the filter selected
    last is one of the filters offered; it fails only with a [KeyError],
    and only when no format has the extension [pdf].  When the stored
    format is missing or is not among the filters, the extension is
    [pdf]. *)
Theorem restore_format_result lastformat (formats : list format) :
  match restore_format lastformat formats with
  | inl (extn, selected) =>
      extn ∈ validextns (export_tables formats) /\
      (exists fs, last selected = Some fs /\ fs ∈ filters (export_tables formats)) /\
      (from_option (fun filt => filt ∉ filters (export_tables formats)) True lastformat
       -> extn = "pdf")
  | inr err =>
      err = KeyError /\ "pdf" ∉ validextns (export_tables formats)
  end.
Proof.
  destruct (export_tables_inv formats) as (Hfil & Hval & Hfe & Hdom & Hef & Hvd).
  assert (Hfallback : forall pre,
    match (match exttofilter (export_tables formats) !! "pdf" with
           | Some f => inl ("pdf", pre ++ [f])
           | None => inr KeyError
           end : (string * list string) + lookup_error) with
    | inl (extn, selected) =>
        extn ∈ validextns (export_tables formats) /\
        (exists fs, last selected = Some fs /\ fs ∈ filters (export_tables formats)) /\
        extn = "pdf"
    | inr err => err = KeyError /\ "pdf" ∉ validextns (export_tables formats)
    end).
  { intros pre. destruct (exttofilter (export_tables formats) !! "pdf") as [f|] eqn:Hp.
    - destruct (Hef _ _ Hp) as [? ?]. split; [done|]. split; [|done].
      exists f. by rewrite last_snoc.
    - split; [done|]. intros Hv. destruct (Hvd _ Hv) as [? ?]. congruence. }
  unfold restore_format. destruct lastformat as [filt|]; simpl.
  - destruct (index filt (filters (export_tables formats))) as [i|] eqn:Hi.
    + apply index_Some in Hi.
      destruct (formats !! i) as [f|] eqn:Hf.
      * destruct f as [[|extn extns] name]; simpl.
        -- specialize (Hfallback [filt]).
           destruct (exttofilter (export_tables formats) !! "pdf"); [|done].
           destruct Hfallback as (? & ? & ?). by repeat split.
        -- split; [|split].
           ++ apply Hval. exists (extn :: extns, name).
              split; [by eapply list_elem_of_lookup_2|by left].
           ++ exists filt. split; [done|]. by eapply list_elem_of_lookup_2.
           ++ intros Hn. exfalso. apply Hn. by eapply list_elem_of_lookup_2.
      * specialize (Hfallback [filt]).
        destruct (exttofilter (export_tables formats) !! "pdf"); [|done].
        destruct Hfallback as (? & ? & ?). by repeat split.
    + specialize (Hfallback [filt]).
      destruct (exttofilter (export_tables formats) !! "pdf"); [|done].
      destruct Hfallback as (? & ? & ?). by repeat split.
  - specialize (Hfallback []).
    destruct (exttofilter (export_tables formats) !! "pdf"); [|done].
    destruct Hfallback as (? & ? & ?). by repeat split.
Qed.

(** ** The further properties on the samples *)

Import SampleUI.

(** A load of [syntax.vsz], which does not compile. *)
Lemma compile_error_is_reported_witness :
  openFileInWindow host "syntax.vsz" (window [])
  = (window [],
     [EvSetOverrideCursor; EvCompileChecked false; EvRestoreOverrideCursor;
      EvErrorLoadingDialog "syntax.vsz" "invalid syntax" "SyntaxError: invalid syntax"],
     Returned).
Proof.
  apply (compile_error_is_reported host "syntax.vsz" (window []) "syntax.vsz"
           SyntaxError); [reflexivity..|discriminate].
Defined.

(** The load of [exit.vsz]: what leaves it is [SystemExit]. *)
Lemma propagated_exceptions_witness :
  is_Exception SystemExit = false \/
  (open_read host "exit.vsz" = ReadRaises SystemExit /\
   exn_cls SystemExit <> EnvironmentError).
Proof.
  destruct (openFileInWindow host "exit.vsz" (window [true])) as [[w' evs] o] eqn:H.
  apply (propagated_exceptions host "exit.vsz" (window [true]) w' evs).
  rewrite H. vm_compute in H. by injection H as <- <- <-.
Defined.

Lemma cursor_restored_when_returned_witness :
  exists l1 l2,
    (openFileInWindow host "import.vsz" (window [false])).1.2
    = EvSetOverrideCursor :: l1 ++ EvRestoreOverrideCursor :: l2.
Proof.
  destruct (openFileInWindow host "import.vsz" (window [false])) as [[w' evs] o] eqn:H.
  apply (cursor_restored_when_returned host "import.vsz" (window [false]) w').
  rewrite H. vm_compute in H. by injection H as <- <- <-.
Defined.


(** In unsafe mode [export.vsz] loads without a question. *)
Lemma unsafe_mode_shows_no_command_prompt_witness :
  no_cmd_prompt (openFileInWindow unsafe_host "export.vsz" (window [])).1.2.
Proof.
  destruct (openFileInWindow unsafe_host "export.vsz" (window [])) as [[w' evs] o] eqn:H.
  exact (unsafe_mode_shows_no_command_prompt unsafe_host _ _ _ _ _ eq_refl H).
Defined.

Lemma plain_script_calls_within :
  calls_within (not_wrapped (build_env host "plain.vsz")) plain_script.
Proof.
  unfold plain_script. simpl.
  constructor; [intros c; by vm_compute|].
  intros [v|e]; [|constructor].
  constructor; [intros c; by vm_compute|].
  intros [v'|e']; constructor.
Qed.

Lemma safe_script_shows_no_prompt_witness :
  answers (openFileInWindow host "plain.vsz" (window [true; false])).1.1
  = [true; false].
Proof.
  destruct (openFileInWindow host "plain.vsz" (window [true; false]))
    as [[w' evs] o] eqn:H.
  exact (proj2 (safe_script_shows_no_prompt host "plain.vsz" (window [true; false])
                  "plain.vsz" plain_script w' evs o eq_refl eq_refl
                  plain_script_calls_within H)).
Defined.

(** [a.vsz] is opened in the sample window, whose list of recent files
    has it in second place. *)
Lemma addRecentFile_list_witness :
  head (main_recentfiles (addRecentFile host "a.vsz" unnamed).1)
  = Some "/home/user/a.vsz".
Proof.
  destruct (addRecentFile host "a.vsz" unnamed) as [w' evs] eqn:H.
  exact (proj1 (addRecentFile_list host "a.vsz" unnamed w' evs H)).
Defined.

Lemma addRecentFile_NoDup_witness :
  NoDup (main_recentfiles (addRecentFile host "a.vsz" unnamed).1).
Proof.
  destruct (addRecentFile host "a.vsz" unnamed) as [w' evs] eqn:H.
  refine (proj2 (addRecentFile_NoDup host "a.vsz" unnamed w' evs _ H)).
  apply NoDup_cons. split; [intros Hi; not_elem Hi|].
  apply NoDup_cons. split; [intros Hi; not_elem Hi|]. apply NoDup_nil_2.
Defined.

(** The sample drop on a window that is not blank. *)
Lemma dropEvent_opens_vsz_files_witness :
  map opened_file (dropEvent sample_splitext false dropped)
  = ["/home/user/a.vsz"; "/home/user/b.vsz"].
Proof.
  rewrite (dropEvent_opens_vsz_files sample_splitext false dropped eq_refl eq_refl).
  by vm_compute.
Defined.

Lemma dropEvent_spares_document_witness : 0 = 0 /\ true = true.
Proof.
  exact (dropEvent_spares_document sample_splitext true dropped 0
           "/home/user/a.vsz" eq_refl).
Defined.

Lemma showDialog_deleteDialog_witness :
  deleteDialog 7 (showDialog 7 [3; 5]) = [3; 5] /\ deleteDialog 7 [3; 5] = [3; 5].
Proof.
  apply (showDialog_deleteDialog 7 [3; 5]). intros Hi. not_elem Hi.
Defined.

Lemma deleteDialog_listed_witness :
  exists l1 l2,
    [3; 5; 3] = l1 ++ 3 :: l2 /\ (3 ∉ l1) /\ deleteDialog 3 [3; 5; 3] = l1 ++ l2.
Proof. apply (deleteDialog_listed 3 [3; 5; 3]). is_elem. Defined.

(** Saving the unnamed sample window as [/home/user/fig]. *)
Lemma save_terminates_witness :
  is_Some (slotFileSave 3 desktop unnamed [Accepted "/home/user" "/home/user/fig"]).
Proof.
  refine (proj2 (save_terminates desktop 5 unnamed
                   [Accepted "/home/user" "/home/user/fig"] _)). lia.
Defined.

Lemma save_writes_under_window_name_witness :
  length (filter (fun e => is_write e = true)
            [UiFileSaveDialog (Accepted "/home/user" "/home/user/fig");
             UiUpdateTitlebar; UiSetOverrideCursor; UiWrite "/home/user/fig.vsz";
             UiStatusSaved "/home/user/fig.vsz"; UiRestoreOverrideCursor]) <= 1.
Proof.
  eapply (save_writes_under_window_name desktop 3 unnamed
            [Accepted "/home/user" "/home/user/fig"]).
  by vm_compute.
Defined.

Lemma save_unnamed_rejected_witness :
  slotFileSave 2 desktop unnamed [] = Some (unnamed, [], [UiFileSaveDialog Rejected], Returned).
Proof.
  apply (save_unnamed_rejected desktop 2 unnamed [] []); [lia|reflexivity..].
Defined.

(** Saving the unnamed sample window below [/readonly]. *)
Lemma save_as_renames_before_writing_witness :
  slotFileSave 3 desktop unnamed [Accepted "/readonly" "/readonly/fig"]
  = Some (set_filename "/readonly/fig.vsz" (set_dirname "/readonly" unnamed), [],
          [UiFileSaveDialog (Accepted "/readonly" "/readonly/fig"); UiUpdateTitlebar;
           UiSetOverrideCursor; UiWrite "/readonly/fig.vsz"; UiRestoreOverrideCursor;
           UiCritical "/readonly/fig.vsz" "Permission denied"],
          Returned).
Proof.
  apply (save_as_renames_before_writing desktop 3 unnamed
           [Accepted "/readonly" "/readonly/fig"] [] "/readonly" "/readonly/fig"
           "/readonly/fig.vsz" EACCES);
    [lia|reflexivity|reflexivity|reflexivity|discriminate|reflexivity|reflexivity].
Defined.

(** Closing the unnamed sample window. *)
Lemma close_ignored_iff_cancelled_witness :
  (closeEvent 3 desktop Cancel unnamed []) = Some (unnamed, [], [UiQueryOverwrite Cancel; UiIgnore], Returned).
Proof.
  destruct (closeEvent 3 desktop Cancel unnamed []) as [[[[w' dlgs'] evs] o]|] eqn:H;
    [|by vm_compute in H].
  destruct (proj2 (close_ignored_iff_cancelled desktop 3 Cancel unnamed [] w' dlgs' evs o H))
    as (-> & -> & ->).
  - apply (proj1 (close_ignored_iff_cancelled desktop 3 Cancel unnamed [] w' dlgs' evs o H)).
    by split.
  - vm_compute in H. by injection H as <-.
Defined.

Lemma close_writes_only_on_yes_witness :
  doc_modified (document unnamed) = true /\ Yes = Yes.
Proof.
  destruct (closeEvent 3 desktop Yes unnamed [Accepted "/home/user" "/home/user/fig"])
    as [[[[w' dlgs'] evs] o]|] eqn:H; [|by vm_compute in H].
  apply (proj1 (close_writes_only_on_yes desktop 3 Yes unnamed _ w' dlgs' evs o H)
           "/home/user/fig.vsz").
  vm_compute in H. injection H as <- <- <- <-. is_elem.
Defined.

Lemma close_accepts_without_saving_witness :
  closeEvent 2 desktop Yes unnamed []
  = Some (unnamed, [],
          [UiQueryOverwrite Yes; UiFileSaveDialog Rejected;
           UiWriteSettings "/tmp" "/tmp"; UiAccept],
          Returned).
Proof.
  apply (close_accepts_without_saving desktop 2 unnamed [] []); [lia|reflexivity..].
Defined.

(** Exporting [/tmp/fig.jpg] with the filter of PNG chosen. *)
Lemma export_filename_test_witness :
  export_filename sample_splitext formats "Portable Network Graphics (*.png)"
    "/tmp/fig.jpg" = inl "/tmp/fig.jpg.png".
Proof.
  rewrite (proj2 (export_filename_test sample_splitext formats
                    "Portable Network Graphics (*.png)" "/tmp/fig.jpg" ["png"]
                    eq_refl)).
  by vm_compute.
Defined.

Lemma export_filename_offered_witness :
  export_filename sample_splitext formats "Scalable Vector Graphics (*.svg)" "/tmp/fig"
  <> inr KeyError.
Proof.
  refine (proj1 (export_filename_offered sample_splitext formats
                   "Scalable Vector Graphics (*.svg)" "/tmp/fig" _)).
  vm_compute. is_elem.
Defined.

(** ** The menu of the plugins *)

Section Plugins.

Implicit Types (menu menulook : list menu_item) (k : list menu_item -> option (list menu_item)).

(** What one pass does to [menulook]: the items of the first submenu of
    the name are replaced by what [k] makes of them, or a submenu of the
    name is appended. *)
Lemma enter_spec name cmpt k menulook r :
  enter name cmpt k menulook = Some r ->
  (exists l1 cm items l2 sub,
     menulook = l1 ++ SubMenu name cm items :: l2 /\
     Forall (fun c => item_key c <> name) l1 /\
     k items = Some sub /\ r = l1 ++ SubMenu name cm sub :: l2) \/
  (exists sub,
     Forall (fun c => item_key c <> name) menulook /\
     k [] = Some sub /\ r = menulook ++ [SubMenu name cmpt sub]).
Proof.
  revert r. induction menulook as [|c rest IH]; intros r; simpl.
  - destruct (k []) as [sub|] eqn:Hk; [|done]. intros [= <-].
    right. exists sub. by repeat split.
  - destruct (decide (item_key c = name)) as [Hc|Hc].
    + destruct c as [a|n cm items]; [done|]. simpl in Hc. subst n.
      destruct (k items) as [sub|] eqn:Hk; [|done]. intros [= <-].
      left. exists [], cm, items, rest, sub. by repeat split.
    + destruct (enter name cmpt k rest) as [rest'|] eqn:He; [|done].
      intros [= <-].
      destruct (IH _ eq_refl) as
        [(l1 & cm & items & l2 & sub & -> & Hl1 & Hk & ->)|(sub & Hall & Hk & ->)].
      * left. exists (c :: l1), cm, items, l2, sub.
        split; [done|]. split; [by constructor|done].
      * right. exists sub. split; [by constructor|done].
Qed.

Lemma append_dot_nonempty (s t : string) : s +:+ "." +:+ t <> "".
Proof. by destruct s. Qed.

(** The first character of a name is not the name of a submenu below a
    prefix that is not empty. *)
Lemma action_key_differs a (prefix cmpt : string) :
  prefix <> "" -> item_key (MenuAction a) <> prefix +:+ "." +:+ cmpt.
Proof.
  intros Hp. destruct prefix as [|p prefix]; [done|].
  destruct a as [|a0 a]; simpl; [done|].
  intros [= _ H]. symmetry in H. by apply append_dot_nonempty in H.
Qed.

Lemma enter_is_Some name cmpt k menulook :
  (forall a, item_key (MenuAction a) <> name) ->
  (forall items, is_Some (k items)) ->
  is_Some (enter name cmpt k menulook).
Proof.
  intros Hkey Hk. induction menulook as [|c rest IH]; simpl.
  - destruct (Hk []) as [sub ->]. by eexists.
  - destruct (decide (item_key c = name)) as [Hc|Hc].
    + destruct c as [a|n cm items]; [by apply Hkey in Hc|].
      destruct (Hk items) as [sub ->]. by eexists.
    + destruct IH as [r ->]. by eexists.
Qed.

Lemma place_is_Some cmpts : forall prefix actname menulook,
  prefix <> "" -> is_Some (place cmpts prefix actname menulook).
Proof.
  induction cmpts as [|cmpt rest IH]; intros prefix actname menulook Hp; simpl.
  - by eexists.
  - apply enter_is_Some.
    + intros a. by apply action_key_differs.
    + intros items. apply IH. apply append_dot_nonempty.
Qed.

(** *** The actions of the menu *)

Lemma menu_actions_app menu1 menu2 :
  menu_actions (menu1 ++ menu2) = menu_actions menu1 ++ menu_actions menu2.
Proof. unfold menu_actions. apply flat_map_app. Qed.

Lemma place_actions cmpts : forall prefix a menulook r,
  place cmpts prefix a menulook = Some r ->
  menu_actions r ≡ₚ menu_actions menulook ++ [a].
Proof.
  induction cmpts as [|cmpt rest IH]; intros prefix a menulook r; simpl.
  - intros [= <-]. by rewrite menu_actions_app.
  - intros He. apply enter_spec in He as
      [(l1 & cm & items & l2 & sub & -> & _ & Hk & ->)|(sub & _ & Hk & ->)].
    + apply IH in Hk. rewrite !menu_actions_app. simpl.
      fold (menu_actions sub). fold (menu_actions items). fold (menu_actions l2).
      rewrite Hk. rewrite <- !app_assoc. do 2 f_equiv. apply Permutation_app_comm.
    + apply IH in Hk. rewrite !menu_actions_app. simpl.
      fold (menu_actions sub). by rewrite Hk.
Qed.

(** *** Where the actions are *)

Lemma action_at_subseteq cs pre b menu menu' :
  menu ⊆ menu' -> action_at cs pre b menu -> action_at cs pre b menu'.
Proof.
  intros Hsub. destruct cs as [|c cs]; simpl.
  - apply Hsub.
  - intros (cm & items & Hin & Hat). exists cm, items. split; [by apply Hsub|done].
Qed.

Lemma place_at cmpts : forall prefix a menulook r,
  place cmpts prefix a menulook = Some r -> action_at cmpts prefix a r.
Proof.
  induction cmpts as [|cmpt rest IH]; intros prefix a menulook r; simpl.
  - intros [= <-]. apply elem_of_app. right. by left.
  - intros He. apply enter_spec in He as
      [(l1 & cm & items & l2 & sub & -> & _ & Hk & ->)|(sub & _ & Hk & ->)].
    + exists cm, sub. split; [|by eapply IH]. apply elem_of_app. right. by left.
    + exists cmpt, sub. split; [|by eapply IH]. apply elem_of_app. right. by left.
Qed.

Lemma place_keeps cmpts : forall prefix a menulook r,
  place cmpts prefix a menulook = Some r ->
  forall cs pre b, action_at cs pre b menulook -> action_at cs pre b r.
Proof.
  induction cmpts as [|cmpt rest IH]; intros prefix a menulook r; simpl.
  - intros [= <-] cs pre b. apply action_at_subseteq.
    intros x Hx. apply elem_of_app. by left.
  - intros He cs pre b. apply enter_spec in He as
      [(l1 & cm & items & l2 & sub & -> & _ & Hk & ->)|(sub & _ & Hk & ->)].
    + destruct cs as [|c cs]; simpl.
      * rewrite !elem_of_app, !elem_of_cons. intros [?|[?|?]]; [by left|done|].
        right. by right.
      * intros (cm' & its & Hin & Hat).
        apply elem_of_app in Hin as [Hin|Hin].
        { exists cm', its. split; [|done]. apply elem_of_app. by left. }
        apply elem_of_cons in Hin as [Heq|Hin].
        { injection Heq as Hn -> ->. rewrite Hn in Hat |- *.
          exists cm, sub. split; [apply elem_of_app; right; by left|].
          by eapply IH. }
        exists cm', its. split; [|done]. apply elem_of_app. right. by right.
    + apply action_at_subseteq. intros x Hx. apply elem_of_app. by left.
Qed.

(** *** Submenus are shared *)

Lemma submenu_names_app menu1 menu2 :
  submenu_names (menu1 ++ menu2) = submenu_names menu1 ++ submenu_names menu2.
Proof.
  induction menu1 as [|[a|n cm items] menu1 IH]; simpl; [done|done|by rewrite IH].
Qed.

Lemma all_distinct_app menu1 menu2 :
  fold_right (fun x acc => submenus_distinct_item x /\ acc) True (menu1 ++ menu2)
  <-> fold_right (fun x acc => submenus_distinct_item x /\ acc) True menu1 /\
      fold_right (fun x acc => submenus_distinct_item x /\ acc) True menu2.
Proof.
  induction menu1 as [|c menu1 IH]; simpl; [tauto|]. rewrite IH. tauto.
Qed.

Lemma key_not_in_names name menu :
  Forall (fun c => item_key c <> name) menu -> name ∉ submenu_names menu.
Proof.
  induction 1 as [|[a|n cm items] menu Hc _ IH]; simpl.
  - apply not_elem_of_nil.
  - done.
  - intros [?|?]%elem_of_cons; [by simpl in Hc|done].
Qed.

Lemma place_distinct cmpts : forall prefix a menulook r,
  place cmpts prefix a menulook = Some r ->
  submenus_distinct menulook -> submenus_distinct r.
Proof.
  unfold submenus_distinct.
  induction cmpts as [|cmpt rest IH]; intros prefix a menulook r; simpl.
  - intros [= <-] [Hn Hd]. rewrite submenu_names_app, all_distinct_app. simpl.
    by rewrite app_nil_r.
  - intros He [Hn Hd]. apply enter_spec in He as
      [(l1 & cm & items & l2 & sub & -> & _ & Hk & ->)|(sub & Hall & Hk & ->)].
    + rewrite submenu_names_app in Hn |- *. simpl in Hn |- *. split; [done|].
      apply all_distinct_app in Hd as [Hd1 [Hd2 Hd3]]. simpl in Hd2.
      apply all_distinct_app. split; [done|]. split; [|done].
      simpl. by eapply IH.
    + rewrite submenu_names_app, all_distinct_app. simpl. split.
      * apply NoDup_app. split; [done|]. split; [|apply NoDup_singleton].
        intros x Hx Hx'. apply list_elem_of_singleton in Hx' as ->.
        by apply (key_not_in_names _ _ Hall).
      * split; [done|]. split; [|done]. eapply IH; [done|].
        split; [apply NoDup_nil_2|done].
Qed.

(** *** All plugins *)

Lemma definePlugins_snoc pluginlist p actions menuname :
  definePlugins (pluginlist ++ [p]) actions menuname
  = definePlugins pluginlist actions menuname
      ≫= fun st => define_plugin menuname st p.
Proof. unfold definePlugins. by rewrite foldl_app. Qed.

Lemma define_plugin_Some menuname st p menu actions :
  define_plugin menuname st p = Some (menu, actions) ->
  plugin_menu p <> [] /\
  place (removelast (plugin_menu p)) menuname (actname_of menuname p) st.1 = Some menu /\
  exists text, actions = <[actname_of menuname p := (description_short p, text)]> st.2.
Proof.
  unfold define_plugin. destruct (last (plugin_menu p)) as [l|] eqn:Hl; [|done].
  destruct (place _ menuname _ st.1) as [m|] eqn:Hp; [|done].
  intros [= <- <-]. split; [by intros Hn; rewrite Hn in Hl|]. split; [done|].
  by eexists.
Qed.

(** With a menu name that is not empty, [definePlugins] runs through
    exactly when every plugin has a menu path that is not empty; a plugin
    with an empty path ends it with an [IndexError]. *)
Theorem definePlugins_succeeds pluginlist actions menuname :
  menuname <> "" ->
  is_Some (definePlugins pluginlist actions menuname)
  <-> Forall (fun p => plugin_menu p <> []) pluginlist.
Proof.
  intros Hm. induction pluginlist as [|p l IH] using rev_ind.
  - split; [constructor|]. intros _. by eexists.
  - rewrite definePlugins_snoc, Forall_app, Forall_singleton. split.
    + intros [[menu acts] Hs].
      destruct (definePlugins l actions menuname) as [st|] eqn:Hd; [|done].
      simpl in Hs. apply define_plugin_Some in Hs as (Hne & _).
      split; [|done]. apply IH. by eexists.
    + intros [Hl Hp]. apply IH in Hl as [st ->]. simpl.
      unfold define_plugin.
      destruct (last (plugin_menu p)) as [x|] eqn:Hx.
      * destruct (place_is_Some (removelast (plugin_menu p)) menuname
                    (actname_of menuname p) st.1 Hm) as [m ->].
        by eexists.
      * by apply last_None in Hx.
Qed.

(** When [definePlugins] runs through, every plugin has exactly one
    entry in the menu, its action: the actions of the menu, submenus
    included, are the actions of the plugins up to their order; and the
    actions that are defined afterwards are those that were defined
    before and those of the plugins. *)
Theorem definePlugins_actions pluginlist actions menuname menu actions' :
  definePlugins pluginlist actions menuname = Some (menu, actions') ->
  menu_actions menu ≡ₚ map (actname_of menuname) pluginlist /\
  forall a, is_Some (actions' !! a)
    <-> is_Some (actions !! a) \/ a ∈ map (actname_of menuname) pluginlist.
Proof.
  revert menu actions'. induction pluginlist as [|p l IH] using rev_ind;
    intros menu actions'.
  - intros [= <- <-]. split; [done|]. intros a. split; [by left|].
    intros [?|Hi]; [done|by apply elem_of_nil in Hi].
  - rewrite definePlugins_snoc.
    destruct (definePlugins l actions menuname) as [[menu0 acts0]|] eqn:Hd; [|done].
    simpl. intros Hs. apply define_plugin_Some in Hs as (_ & Hp & text & ->).
    destruct (IH _ _ eq_refl) as [Hperm Hdom]. simpl in *.
    rewrite map_app. simpl. split.
    + rewrite (place_actions _ _ _ _ _ Hp). by rewrite Hperm.
    + intros a. rewrite elem_of_app, list_elem_of_singleton.
      destruct (decide (actname_of menuname p = a)) as [<-|Hne].
      * rewrite lookup_insert_eq. split; [intros _; right; by right|by eexists].
      * rewrite lookup_insert_ne by done. rewrite Hdom.
        split; [intros [?|?]; [by left|right; by left]|].
        intros [?|[?|?]]; [by left|by right|done].
Qed.

(** When [definePlugins] runs through, the action of every plugin is an
    entry of the submenu that is reached through the submenus named by
    the components of its menu path but the last. *)
Theorem definePlugins_paths pluginlist actions menuname menu actions' :
  definePlugins pluginlist actions menuname = Some (menu, actions') ->
  forall p, p ∈ pluginlist ->
    action_at (removelast (plugin_menu p)) menuname (actname_of menuname p) menu.
Proof.
  revert menu actions'. induction pluginlist as [|p l IH] using rev_ind;
    intros menu actions'.
  - intros _ p Hi. by apply elem_of_nil in Hi.
  - rewrite definePlugins_snoc.
    destruct (definePlugins l actions menuname) as [[menu0 acts0]|] eqn:Hd; [|done].
    simpl. intros Hs q Hq. apply define_plugin_Some in Hs as (_ & Hp & _).
    simpl in Hp. apply elem_of_app in Hq as [Hq|Hq].
    + eapply place_keeps; [done|]. by eapply IH.
    + apply list_elem_of_singleton in Hq as ->. by eapply place_at.
Qed.

(** When [definePlugins] runs through, no menu, at any depth, has two
    submenus of the same name: plugins with a common path share the
    submenus on it. *)
Theorem definePlugins_shares_submenus pluginlist actions menuname menu actions' :
  definePlugins pluginlist actions menuname = Some (menu, actions') ->
  submenus_distinct menu.
Proof.
  revert menu actions'. induction pluginlist as [|p l IH] using rev_ind;
    intros menu actions'.
  - intros [= <- <-]. split; [apply NoDup_nil_2|done].
  - rewrite definePlugins_snoc.
    destruct (definePlugins l actions menuname) as [[menu0 acts0]|] eqn:Hd; [|done].
    simpl. intros Hs. apply define_plugin_Some in Hs as (_ & Hp & _).
    eapply place_distinct; [done|]. by eapply IH.
Qed.

End Plugins.

(** The sample plugins below the menu [data.ops]. *)
Lemma definePlugins_succeeds_witness :
  is_Some (definePlugins SamplePlugins.plugins ∅ "data.ops").
Proof.
  apply (definePlugins_succeeds SamplePlugins.plugins ∅ "data.ops"); [done|].
  by repeat constructor.
Defined.

Lemma definePlugins_actions_witness :
  menu_actions
    [SubMenu "data.ops.Filter" "Filter"
       [MenuAction "data.ops.Filter.Smooth"; MenuAction "data.ops.Filter.Clip"];
     MenuAction "data.ops.Subtract"]
  ≡ₚ ["data.ops.Filter.Smooth"; "data.ops.Subtract"; "data.ops.Filter.Clip"].
Proof.
  destruct (definePlugins SamplePlugins.plugins ∅ "data.ops") as [[menu acts]|] eqn:H;
    [|by vm_compute in H].
  destruct (definePlugins_actions _ _ _ _ _ H) as [Hp _].
  vm_compute in H. injection H as <- <-. exact Hp.
Defined.

Lemma definePlugins_paths_witness :
  action_at ["Filter"] "data.ops" "data.ops.Filter.Clip"
    [SubMenu "data.ops.Filter" "Filter"
       [MenuAction "data.ops.Filter.Smooth"; MenuAction "data.ops.Filter.Clip"];
     MenuAction "data.ops.Subtract"].
Proof.
  destruct (definePlugins SamplePlugins.plugins ∅ "data.ops") as [[menu acts]|] eqn:H;
    [|by vm_compute in H].
  assert (Hp := definePlugins_paths _ _ _ _ _ H
                  (mkPlugin ["Filter"; "Clip"] false "Clip a dataset")).
  vm_compute in H. injection H as <- <-. apply Hp. is_elem.
Defined.

Lemma definePlugins_shares_submenus_witness :
  submenus_distinct
    [SubMenu "data.ops.Filter" "Filter"
       [MenuAction "data.ops.Filter.Smooth"; MenuAction "data.ops.Filter.Clip"];
     MenuAction "data.ops.Subtract"].
Proof.
  destruct (definePlugins SamplePlugins.plugins ∅ "data.ops") as [[menu acts]|] eqn:H;
    [|by vm_compute in H].
  assert (Hd := definePlugins_shares_submenus _ _ _ _ _ H).
  vm_compute in H. injection H as <- <-. exact Hd.
Defined.
